(** * CryptoNoise KSampler: the signing stage of [cryptonoise_ksampler.py]

    A shallow embedding of [CryptoNoise_KSampler]: identity derivation
    ([_derive_crypto_identity]), the shuffle dispatch ([_shuffle_latent],
    [_shuffle_pixels], [_shuffle_blocks]), the blend and the error fallback
    of [sample], followed by the properties the specification states about
    them.

    Python values are modelled as follows.
    - [str] is a list of Unicode code points ([pystr]); [bytes] is a list of
      integers in [0, 256).
    - Python [int] is [Z]; sizes and indices that the code only ever uses as
      non-negative loop bounds are [nat].
    - Python [float] (the blend ratio) is a binary64 [float].
    - Exceptions are values of [exn], carried by the [result] monad.
    - [hashlib.sha256] is written out after FIPS 180-4, [str.encode] after
      the UTF-8 encoder of CPython.
    - What belongs to torch, numpy and the interpreter's [int] parser is the
      interface [Platform]. *)

From Stdlib Require Import ZArith List String Ascii Lia Floats.
From stdpp Require Import base list.
Import ListNotations.
Open Scope Z_scope.

(** ** Exceptions and the result monad *)

Inductive exn : Type :=
| UnicodeEncodeError
| ValueError
| IndexError
| ZeroDivisionError
| RuntimeError.

Inductive result (A : Type) : Type :=
| Ok (a : A)
| Raise (e : exn).
Arguments Ok {A} a.
Arguments Raise {A} e.

Definition rbind {A B : Type} (m : result A) (k : A -> result B) : result B :=
  match m with
  | Ok a => k a
  | Raise e => Raise e
  end.

Notation "x <-- m ;; k" := (rbind m (fun x => k))
  (at level 100, m at next level, right associativity).

(** ** Python strings and bytes *)

Definition pystr : Type := list Z.
Definition bytes : Type := list Z.

Definition py (s : string) : pystr :=
  map (fun a => Z.of_N (N_of_ascii a)) (list_ascii_of_string s).

Definition pystr_eqb (a b : pystr) : bool := bool_decide (a = b).

(** [str.encode('utf-8')] with the default [errors='strict']: a surrogate
    code point has no UTF-8 form and raises [UnicodeEncodeError]. *)
Definition utf8_char (c : Z) : result bytes :=
  if c <? 0x80 then Ok [c]
  else if c <? 0x800 then
    Ok [Z.lor 0xC0 (Z.shiftr c 6); Z.lor 0x80 (Z.land c 0x3F)]
  else if (0xD800 <=? c) && (c <=? 0xDFFF) then Raise UnicodeEncodeError
  else if c <? 0x10000 then
    Ok [Z.lor 0xE0 (Z.shiftr c 12);
        Z.lor 0x80 (Z.land (Z.shiftr c 6) 0x3F);
        Z.lor 0x80 (Z.land c 0x3F)]
  else
    Ok [Z.lor 0xF0 (Z.shiftr c 18);
        Z.lor 0x80 (Z.land (Z.shiftr c 12) 0x3F);
        Z.lor 0x80 (Z.land (Z.shiftr c 6) 0x3F);
        Z.lor 0x80 (Z.land c 0x3F)].

Fixpoint encode_utf8 (s : pystr) : result bytes :=
  match s with
  | [] => Ok []
  | c :: s' =>
      bs <-- utf8_char c ;;
      rest <-- encode_utf8 s' ;;
      Ok (bs ++ rest)
  end.

(** [bytes.hex()] *)
Definition hex_digit (d : Z) : Z :=
  if d <? 10 then 48 + d else 97 + (d - 10).

Definition hex (bs : bytes) : pystr :=
  flat_map (fun b => [hex_digit (b / 16); hex_digit (b mod 16)]) bs.

(** [int.from_bytes(bs, 'big')] *)
Definition int_from_bytes_big (bs : bytes) : Z :=
  fold_left (fun acc b => acc * 256 + b) bs 0.

(** ** SHA-256 (FIPS 180-4), the function behind [hashlib.sha256] *)

Module SHA256.

Definition w32 (x : Z) : Z := Z.land x 0xFFFFFFFF.
Definition add32 (x y : Z) : Z := w32 (x + y).
Definition rotr (n x : Z) : Z :=
  Z.lor (Z.shiftr x n) (w32 (Z.shiftl x (32 - n))).
Definition not32 (x : Z) : Z := Z.lxor x 0xFFFFFFFF.

Definition Ch (x y z : Z) : Z := Z.lxor (Z.land x y) (Z.land (not32 x) z).
Definition Maj (x y z : Z) : Z :=
  Z.lxor (Z.lxor (Z.land x y) (Z.land x z)) (Z.land y z).
Definition Sigma0 (x : Z) : Z := Z.lxor (Z.lxor (rotr 2 x) (rotr 13 x)) (rotr 22 x).
Definition Sigma1 (x : Z) : Z := Z.lxor (Z.lxor (rotr 6 x) (rotr 11 x)) (rotr 25 x).
Definition sigma0 (x : Z) : Z := Z.lxor (Z.lxor (rotr 7 x) (rotr 18 x)) (Z.shiftr x 3).
Definition sigma1 (x : Z) : Z := Z.lxor (Z.lxor (rotr 17 x) (rotr 19 x)) (Z.shiftr x 10).

(** The round constants are the first 32 bits of the fractional parts of
    the cube roots of the first 64 primes, the initial hash value those of
    the square roots of the first 8 primes (FIPS 180-4, 4.2.2 and 5.3.3). *)
Definition is_prime (n : nat) : bool :=
  forallb (fun d => negb (n mod d =? 0)%nat) (seq 2 (n - 2)).

Definition primes : list Z :=
  map Z.of_nat (filter (fun n => is_prime n) (seq 2 310)).

(** The largest [x] in [lo, hi) with [ok x], for a downward closed [ok]. *)
Fixpoint bisect (fuel : nat) (ok : Z -> bool) (lo hi : Z) : Z :=
  match fuel with
  | O => lo
  | S fuel' =>
      let mid := (lo + hi) / 2 in
      if ok mid then bisect fuel' ok mid hi else bisect fuel' ok lo mid
  end.

Definition cube_root_bits (p : Z) : Z :=
  w32 (bisect 40 (fun x => x * x * x <=? p * 2 ^ 96) 0 (2 ^ 36)).

Definition square_root_bits (p : Z) : Z :=
  w32 (Z.sqrt (p * 2 ^ 64)).

Definition K : list Z := Eval vm_compute in map cube_root_bits primes.

Definition H0 : list Z := Eval vm_compute in map square_root_bits (take 8 primes).

Definition be_bytes (n : nat) (x : Z) : bytes :=
  map (fun i => Z.land (Z.shiftr x (8 * Z.of_nat i)) 0xFF) (rev (seq 0 n)).

Definition pad (msg : bytes) : bytes :=
  let len := Z.of_nat (length msg) in
  msg ++ [0x80] ++ repeat 0 (Z.to_nat ((55 - len) mod 64)) ++ be_bytes 8 (8 * len).

Fixpoint chunks (fuel n : nat) (l : bytes) : list bytes :=
  match fuel, l with
  | O, _ | _, [] => []
  | S fuel', _ => firstn n l :: chunks fuel' n (skipn n l)
  end.

Definition words_of (block : bytes) : list Z :=
  map (fun i => int_from_bytes_big (firstn 4 (skipn (4 * i) block))) (seq 0 16).

Definition extend (w : list Z) (t : nat) : list Z :=
  w ++ [add32 (add32 (sigma1 (nth (t - 2) w 0)) (nth (t - 7) w 0))
              (add32 (sigma0 (nth (t - 15) w 0)) (nth (t - 16) w 0))].

Definition schedule (block : bytes) : list Z :=
  fold_left extend (seq 16 48) (words_of block).

Definition round (st : list Z) (kw : Z * Z) : list Z :=
  match st with
  | [a; b; c; d; e; f; g; h] =>
      let t1 := add32 (add32 (add32 h (Sigma1 e)) (add32 (Ch e f g) (fst kw))) (snd kw) in
      let t2 := add32 (Sigma0 a) (Maj a b c) in
      [add32 t1 t2; a; b; c; add32 d t1; e; f; g]
  | _ => st
  end.

Definition compress (h : list Z) (block : bytes) : list Z :=
  let st := fold_left round (combine K (schedule block)) h in
  map (fun p => add32 (fst p) (snd p)) (combine h st).

Definition digest (msg : bytes) : bytes :=
  let p := pad msg in
  flat_map (be_bytes 4) (fold_left compress (chunks (length p) 64 p) H0).

End SHA256.

Definition sha256 (msg : bytes) : bytes := SHA256.digest msg.

(** ** Tensors

    A latent tensor carries its shape (B, C, H, W) and, per batch entry and
    channel, an H-by-W grid of elements stored as a list of rows. *)

Record shape : Type := Shape { dimB : nat; dimC : nat; dimH : nat; dimW : nat }.

Abbreviation grid E := (list (list E)).

Record tensor (E : Type) : Type := Tensor { tshape : shape; tdata : list (list (grid E)) }.
Arguments Tensor {E} tshape tdata.
Arguments tshape {E} t.
Arguments tdata {E} t.

Section Grids.
Context {E : Type}.
Local Open Scope nat_scope.

Definition grid_wf (h w : nat) (g : grid E) : Prop :=
  length g = h /\ Forall (fun r => length r = w) g.

Definition tensor_wf (t : tensor E) : Prop :=
  length (tdata t) = dimB (tshape t) /\
  Forall (fun img => length img = dimC (tshape t) /\
                     Forall (grid_wf (dimH (tshape t)) (dimW (tshape t))) img) (tdata t).

(** [g[y, x]] *)
Definition cell (g : grid E) (y x : nat) : option E :=
  g !! y ≫= (fun r => r !! x).

(** [t[b, c]] and [t[b, c] = g] *)
Definition slice_at (t : tensor E) (b c : nat) : grid E :=
  default [] (tdata t !! b ≫= (fun img => img !! c)).

Definition set_slice (t : tensor E) (b c : nat) (g : grid E) : tensor E :=
  Tensor (tshape t) (alter (fun img => <[c := g]> img) b (tdata t)).

(** [t[b, c, y, x]] *)
Definition tcell (t : tensor E) (b c y x : nat) : option E :=
  cell (slice_at t b c) y x.

(** [g[:h, :w]] *)
Definition crop (h w : nat) (g : grid E) : grid E :=
  take w <$> take h g.

(** [torch.zeros_like(g)] *)
Definition zeros_like (zero : E) (g : grid E) : grid E :=
  (fun r : list E => (fun _ => zero) <$> r) <$> g.

(** [g[y:y+s, x:x+s]] *)
Definition sub_block (g : grid E) (y x s : nat) : grid E :=
  (fun r => take s (drop x r)) <$> take s (drop y g).

(** [g[y:y+s, x:x+s] = blk] for a block [blk] of the shape of the target
    region: the cells of the region take the block's values, all other cells
    keep theirs. *)
Definition assign_row (r : list E) (x : nat) (src : list E) : list E :=
  imap (fun xx e => if x <=? xx then default e (src !! (xx - x)) else e) r.

Definition assign_block (g : grid E) (y x : nat) (blk : grid E) : grid E :=
  imap (fun yy r =>
          if y <=? yy then
            match blk !! (yy - y) with
            | Some src => assign_row r x src
            | None => r
            end
          else r) g.

(** [g.flatten()] is [concat g]; [flat[perm]] gathers, and raises on an
    index outside [flat]. *)
Definition index_select (flat : list E) (perm : list nat) : result (list E) :=
  match mapM (fun j => flat !! j) perm with
  | Some l => Ok l
  | None => Raise IndexError
  end.

(** [l.reshape(h, w)] *)
Definition reshape (h w : nat) (l : list E) : result (grid E) :=
  if length l =? h * w
  then Ok ((fun y => take w (drop (y * w) l)) <$> seq 0 h)
  else Raise RuntimeError.

(** [for i in range(n): s = body(i, s)], stopping at the first exception *)
Definition for_range {S : Type} (n : nat) (body : nat -> S -> result S) (s : S) : result S :=
  fold_left (fun acc i => s' <-- acc ;; body i s') (seq 0 n) (Ok s).

(** Element-wise maps over a tensor and over two tensors of one shape. *)
Definition tmap (f : E -> E) (t : tensor E) : tensor E :=
  Tensor (tshape t) (fmap (M := list) (fmap (M := list) (fmap (M := list) (fmap (M := list) f))) (tdata t)).

Definition tzip (f : E -> E -> E) (t1 t2 : tensor E) : tensor E :=
  Tensor (tshape t1)
         (zip_with (zip_with (zip_with (zip_with f))) (tdata t1) (tdata t2)).

End Grids.

(** ** The platform: torch, numpy and the interpreter

    - [randn seed sh] is [torch.randn(sh, generator=g, dtype=.., device=..)]
      for a fresh [torch.Generator()] after [g.manual_seed(seed)]; torch
      refuses some dtype and device combinations, hence a [result].
    - [emul] and [eadd] are torch's element kernels for [tensor * float] and
      [tensor + tensor] at the tensor's dtype; [ezero] is the element of
      [torch.zeros_like].
    - [mt19937_seed] and [random_interval] are numpy's legacy generator:
      [random_interval st m] draws an integer in [0, m].
    - [py_int] is the interpreter's [int(str)], [None] for [ValueError].
    - [json_dumps] is [json.dumps(.., indent=2)] on the provenance record.
    - For a negative block size the slices of the block copy loop have
      negative bounds, and torch's broadcasting assignment decides what the
      copy does; [negative_block_shuffle latent seed block_size] stands for
      that outcome. *)

Record Identity : Type := {
  key_hash : pystr;
  seed : Z;
  artist_key_length : nat;
  id_shape : shape;
  timestamp : float
}.

Record gen_params : Type := {
  gp_seed : Z;
  gp_steps : Z;
  gp_cfg : float;
  gp_sampler : pystr;
  gp_scheduler : pystr
}.

Record verification : Type := {
  v_version : pystr;
  v_system : pystr;
  v_timestamp : float;
  v_artist_key_hash : pystr;
  v_artist_signature : pystr;
  v_artist_note : pystr;
  v_blend_strength : float;
  v_shuffle_mode : pystr;
  v_latent_shape : list nat;
  v_crypto_seed : Z;
  v_generation : gen_params;
  v_method : pystr;
  v_expected_result : pystr;
  v_proof_type : pystr;
  v_collision_probability : pystr;
  v_legal_notice : pystr
}.

Class Platform : Type := {
  elem : Type;
  ezero : elem;
  emul : elem -> float -> elem;
  eadd : elem -> elem -> elem;
  randn : Z -> shape -> result (tensor elem);
  randn_wf : forall s sh t, randn s sh = Ok t -> tshape t = sh /\ tensor_wf t;
  rng_state : Type;
  mt19937_seed : Z -> rng_state;
  random_interval : rng_state -> nat -> nat * rng_state;
  random_interval_le : forall st m, (fst (random_interval st m) <= m)%nat;
  py_int : pystr -> option Z;
  json_dumps : verification -> pystr;
  negative_block_shuffle : tensor elem -> Z -> Z -> result (tensor elem)
}.

(** ** numpy's [RandomState(seed).permutation(n)] *)

Section Numpy.
Context `{Platform}.
Local Open Scope nat_scope.

(** [np.random.RandomState(seed)]: the legacy seeding accepts an integer in
    [0, 2**32 - 1] and raises [ValueError] otherwise. *)
Definition RandomState (seed : Z) : result rng_state :=
  if ((seed <? 0) || (0xFFFFFFFF <? seed))%Z then Raise ValueError
  else Ok (mt19937_seed seed).

(** [x[i], x[j] = x[j], x[i]] *)
Definition swap (x : list nat) (i j : nat) : list nat :=
  match x !! i, x !! j with
  | Some xi, Some xj => <[i := xj]> (<[j := xi]> x)
  | _, _ => x
  end.

(** [RandomState.shuffle] on a one-dimensional array:
    [for i in reversed(range(1, n)): j = random_interval(i); swap] *)
Definition shuffle_step (acc : list nat * rng_state) (i : nat) : list nat * rng_state :=
  let '(j, st') := random_interval (snd acc) i in
  (swap (fst acc) i j, st').

Definition shuffle (st : rng_state) (x : list nat) : list nat * rng_state :=
  fold_left shuffle_step (rev (seq 1 (length x - 1))) (x, st).

(** [rng.permutation(n)]: [arange(n)], shuffled *)
Definition permutation (st : rng_state) (n : nat) : list nat :=
  fst (shuffle st (seq 0 n)).

End Numpy.

(** ** [CryptoNoise_KSampler] *)

(** The [LATENT] dictionary: its ["samples"] tensor and whatever other keys
    the host pipeline put there, with values of an opaque type [X]. *)
Record latent_dict (E X : Type) : Type := LatentDict {
  samples : tensor E;
  other_keys : list (pystr * X)
}.
Arguments LatentDict {E X} samples other_keys.
Arguments samples {E X} l.
Arguments other_keys {E X} l.

(** [s.split(sep)] for a one-character separator *)
Fixpoint split_on (sep : Z) (s : pystr) : list pystr :=
  match s with
  | [] => [[]]
  | c :: s' =>
      if c =? sep then [] :: split_on sep s'
      else match split_on sep s' with
           | f :: fs => (c :: f) :: fs
           | [] => [[c]]
           end
  end.

(** [_derive_crypto_identity]; [now] is the reading of [time.time()]. *)
Definition _derive_crypto_identity (artist_key : pystr) (sh : shape) (now : float)
  : result Identity :=
  encoded <-- encode_utf8 artist_key ;;
  let hash_digest := sha256 encoded in
  let key_hash := hex hash_digest in
  let seed := int_from_bytes_big (take 8 hash_digest) mod 2 ^ 32 in
  Ok {| key_hash := key_hash;
        seed := seed;
        artist_key_length := length artist_key;
        id_shape := sh;
        timestamp := now |}.

(** [f"CN-{identity['key_hash'][:16]}"] *)
Definition signature_of (identity : Identity) : pystr :=
  py "CN-" ++ take 16 (key_hash identity).

Definition _build_verification_info (identity : Identity) (blend : float)
    (shuffle_mode : pystr) (latent_shape : shape) (gp : gen_params) : verification :=
  {| v_version := py "1.0.0";
     v_system := py "CryptoNoise_KSampler";
     v_timestamp := timestamp identity;
     v_artist_key_hash := key_hash identity;
     v_artist_signature := signature_of identity;
     v_artist_note := py "Artist key hash (not the key itself - key remains sealed)";
     v_blend_strength := blend;
     v_shuffle_mode := shuffle_mode;
     v_latent_shape := [dimB latent_shape; dimC latent_shape;
                        dimH latent_shape; dimW latent_shape];
     v_crypto_seed := seed identity;
     v_generation := gp;
     v_method := py "Regenerate with disclosed artist_key, compare SSIM";
     v_expected_result := py "SSIM " ++ [8776] ++ py " 1.0 if artist_key matches";
     v_proof_type := py "Mathematical (SHA-256 based)";
     v_collision_probability := py "~10^-77 (effectively impossible)";
     v_legal_notice := py "This signature is intrinsic to the generation process and cannot be removed without regenerating the image. Artist key must be disclosed for verification in legal disputes." |}.

Section Sampler.
Context `{Platform}.
Local Open Scope nat_scope.

(** [_shuffle_pixels] *)
Definition shuffle_pixels_slice (H W : nat) (channel_seed : Z) (g : grid elem)
  : result (grid elem) :=
  rng <-- RandomState channel_seed ;;
  let flat := concat g in
  let perm := permutation rng (length flat) in
  picked <-- index_select flat perm ;;
  reshape H W picked.

Definition _shuffle_pixels (latent : tensor elem) (identity : Identity)
  : result (tensor elem) :=
  let '(Shape B C H W) := tshape latent in
  for_range B (fun b shuffled =>
    for_range C (fun c shuffled =>
      let channel_seed := (seed identity + Z.of_nat b * Z.of_nat C + Z.of_nat c)%Z in
      g <-- shuffle_pixels_slice H W channel_seed (slice_at latent b c) ;;
      Ok (set_slice shuffled b c g)) shuffled) latent.

(** One turn of the block copy loop of [_shuffle_blocks]. When [dst_idx] is
    past the last block the target rows are empty: a 1-by-1 source
    broadcasts into them and nothing is written, a larger source raises. *)
Definition move_block (block_size blocks_w total_blocks : nat) (block_perm : list nat)
    (channel : grid elem) (idx : nat) (shuffled_channel : grid elem)
  : result (grid elem) :=
  let src_row := idx / blocks_w in
  let src_col := idx mod blocks_w in
  let src_y := src_row * block_size in
  let src_x := src_col * block_size in
  match block_perm !! idx with
  | None => Raise IndexError
  | Some dst_idx =>
      let dst_row := dst_idx / blocks_w in
      let dst_col := dst_idx mod blocks_w in
      let dst_y := dst_row * block_size in
      let dst_x := dst_col * block_size in
      if dst_idx <? total_blocks then
        Ok (assign_block shuffled_channel dst_y dst_x
              (sub_block channel src_y src_x block_size))
      else if block_size =? 1 then Ok shuffled_channel
      else Raise RuntimeError
  end.

(** The body of the (b, c) loop of [_shuffle_blocks]: [latent_slice] is
    [latent[b, c]], [shuffled_slice] is [shuffled[b, c]], whose top-left
    region receives the shuffled channel. *)
Definition shuffle_blocks_slice (block_size blocks_w total_blocks actual_h actual_w : nat)
    (block_perm : list nat) (latent_slice shuffled_slice : grid elem)
  : result (grid elem) :=
  let channel := crop actual_h actual_w latent_slice in
  let shuffled_channel := zeros_like ezero channel in
  shuffled_channel <-- for_range total_blocks
      (move_block block_size blocks_w total_blocks block_perm channel)
      shuffled_channel ;;
  Ok (assign_block shuffled_slice 0 0 shuffled_channel).

(** [_shuffle_blocks] *)
Definition _shuffle_blocks (latent : tensor elem) (identity : Identity) (block_size : Z)
  : result (tensor elem) :=
  let '(Shape B C H W) := tshape latent in
  if (block_size =? 0)%Z then Raise ZeroDivisionError
  else if (block_size <? 0)%Z then negative_block_shuffle latent (seed identity) block_size
  else
    let S := Z.to_nat block_size in
    let blocks_h := H / S in
    let blocks_w := W / S in
    let actual_h := blocks_h * S in
    let actual_w := blocks_w * S in
    if (blocks_h =? 0) || (blocks_w =? 0) then _shuffle_pixels latent identity
    else
      let total_blocks := blocks_h * blocks_w in
      rng <-- RandomState (seed identity) ;;
      let block_perm := permutation rng total_blocks in
      for_range B (fun b shuffled =>
        for_range C (fun c shuffled =>
          g <-- shuffle_blocks_slice S blocks_w total_blocks actual_h actual_w
                  block_perm (slice_at latent b c) (slice_at shuffled b c) ;;
          Ok (set_slice shuffled b c g)) shuffled) latent.

(** [_shuffle_latent]: [int(shuffle_mode.split("_")[1])] raises [IndexError]
    when there is no second field and [ValueError] when it is no integer. *)
Definition _shuffle_latent (latent : tensor elem) (identity : Identity)
    (shuffle_mode : pystr) : result (tensor elem) :=
  if pystr_eqb shuffle_mode (py "pixel") then _shuffle_pixels latent identity
  else
    match split_on 95 shuffle_mode !! 1 with
    | None => Raise IndexError
    | Some field =>
        match py_int field with
        | None => Raise ValueError
        | Some block_size => _shuffle_blocks latent identity block_size
        end
    end.

(** The blend of [sample]:
    [samples * (1.0 - crypto_blend) + crypto_noise * crypto_blend] below
    ratio 1, the noise itself otherwise. *)
Definition blend (samples crypto_noise : tensor elem) (crypto_blend : float)
  : tensor elem :=
  if PrimFloat.ltb crypto_blend 1 then
    tzip eadd (tmap (fun e => emul e (PrimFloat.sub 1 crypto_blend)) samples)
              (tmap (fun e => emul e crypto_blend) crypto_noise)
  else crypto_noise.

(** The body of the [try] block of [sample]. *)
Definition apply_crypto_noise (samples : tensor elem) (identity : Identity)
    (crypto_blend : float) (shuffle_mode : pystr) (gp : gen_params)
  : result (tensor elem * verification) :=
  crypto_base <-- randn (seed identity) (tshape samples) ;;
  crypto_noise <-- _shuffle_latent crypto_base identity shuffle_mode ;;
  let blended_samples := blend samples crypto_noise crypto_blend in
  Ok (blended_samples,
      _build_verification_info identity crypto_blend shuffle_mode (tshape samples) gp).

Record stage_out (X : Type) : Type := StageOut {
  signed_latent : latent_dict elem X;
  signature : pystr;
  verification_info : option verification
}.
Arguments StageOut {X} signed_latent signature verification_info.
Arguments signed_latent {X} s.
Arguments signature {X} s.
Arguments verification_info {X} s.

(** The blend threshold of [sample], the binary64 value of [0.01]. *)
Definition blend_threshold : float := 0x1.47ae147ae147bp-7%float.

(** STEP 1 of [sample]: everything up to the call of the sampler. *)
Definition sign_stage {X : Type} (latent_image : latent_dict elem X) (gp : gen_params)
    (artist_key : pystr) (crypto_blend : float) (shuffle_mode : pystr) (now : float)
  : result (stage_out X) :=
  let samples := samples latent_image in
  if PrimFloat.ltb blend_threshold crypto_blend then
    identity <-- _derive_crypto_identity artist_key (tshape samples) now ;;
    let signature := signature_of identity in
    match apply_crypto_noise samples identity crypto_blend shuffle_mode gp with
    | Ok (blended_samples, info) =>
        Ok (StageOut (LatentDict blended_samples []) signature (Some info))
    | Raise _ =>
        Ok (StageOut latent_image (py "error") None)
    end
  else
    Ok (StageOut latent_image (py "unsigned") None).

(** [json.dumps(verification_info, indent=2) if verification_info else "{}"] *)
Definition verification_json (info : option verification) : pystr :=
  match info with
  | Some v => json_dumps v
  | None => py "{}"
  end.

(** [sample]; [common_ksampler] is the host's sampler with the model, the
    conditioning and the generation parameters already applied. *)
Definition sample {X R : Type} (common_ksampler : latent_dict elem X -> result R)
    (latent_image : latent_dict elem X) (gp : gen_params)
    (artist_key : pystr) (crypto_blend : float) (shuffle_mode : pystr) (now : float)
  : result (R * pystr * pystr) :=
  st <-- sign_stage latent_image gp artist_key crypto_blend shuffle_mode now ;;
  r <-- common_ksampler (signed_latent st) ;;
  Ok (r, signature st, verification_json (verification_info st)).

End Sampler.

Arguments StageOut {_ X} signed_latent signature verification_info.
Arguments signed_latent {_ X} s.
Arguments signature {_ X} s.
Arguments verification_info {_ X} s.

(** [INPUT_TYPES()["optional"]["shuffle_mode"]]: the choices of the combo box
    and its default *)
Record combo_input : Type := ComboInput { choices : list pystr; combo_default : pystr }.

Definition INPUT_TYPES_shuffle_mode : combo_input :=
  {| choices := [py "block_8"; py "block_16"; py "block_32"; py "pixel"];
     combo_default := py "block_8" |}.

(** ** A reference platform

    numpy's MT19937 generator written out, binary64 tensors, and a decimal
    [int] parser for ASCII fields. The loop of [random_interval] rejects
    draws above [max]; the reference runs it for at most [draw_limit] draws
    and records in the state ([None]) when that limit cut it short. torch's
    Gaussian sampler is not reproduced: the tensor is filled with a ramp
    that starts at the seed's low bits. *)

Module MT19937.

Record state : Type := State { key : list Z; pos : nat }.

Definition w32 (x : Z) : Z := Z.land x 0xFFFFFFFF.

Fixpoint init_key (n : nat) (pos : Z) (s : Z) : list Z :=
  match n with
  | O => []
  | S n' => s :: init_key n' (pos + 1)
                   (w32 (1812433253 * Z.lxor s (Z.shiftr s 30) + pos + 1))
  end.

Definition mt19937_seed (seed : Z) : state :=
  State (init_key 624 0 (w32 seed)) 624.

Definition twist_at (k : list Z) (i : nat) : list Z :=
  let y := Z.lor (Z.land (nth i k 0) 0x80000000)
                 (Z.land (nth ((i + 1) mod 624) k 0) 0x7FFFFFFF) in
  <[i := Z.lxor (Z.lxor (nth ((i + 397) mod 624) k 0) (Z.shiftr y 1))
                (if Z.odd y then 0x9908B0DF else 0)]> k.

Definition mt19937_gen (k : list Z) : list Z :=
  fold_left twist_at (seq 0 624) k.

Definition temper (y : Z) : Z :=
  let y := Z.lxor y (Z.shiftr y 11) in
  let y := Z.lxor y (Z.land (Z.shiftl y 7) 0x9D2C5680) in
  let y := Z.lxor y (Z.land (Z.shiftl y 15) 0xEFC60000) in
  Z.lxor y (Z.shiftr y 18).

Definition mt19937_next (st : state) : Z * state :=
  let st := if (pos st =? 624)%nat then State (mt19937_gen (key st)) 0 else st in
  (temper (nth (pos st) (key st) 0), State (key st) (S (pos st))).

Definition mt19937_next64 (st : state) : Z * state :=
  let '(hi, st) := mt19937_next st in
  let '(lo, st) := mt19937_next st in
  (Z.lor (Z.shiftl hi 32) lo, st).

Definition smear (max : Z) : Z :=
  fold_left (fun mask s => Z.lor mask (Z.shiftr mask s)) [1; 2; 4; 8; 16; 32] max.

Fixpoint interval_loop (fuel : nat) (mask max : Z) (st : state) : option (Z * state) :=
  match fuel with
  | O => None
  | S fuel' =>
      let '(v, st') := if max <=? 0xFFFFFFFF then mt19937_next st else mt19937_next64 st in
      let value := Z.land v mask in
      if value <=? max then Some (value, st') else interval_loop fuel' mask max st'
  end.

Definition draw_limit : nat := 256.

Definition random_interval (st : option state) (max : nat) : nat * option state :=
  match st with
  | None => (O, None)
  | Some s =>
      if (max =? 0)%nat then (O, Some s)
      else match interval_loop draw_limit (smear (Z.of_nat max)) (Z.of_nat max) s with
           | Some (v, s') => (Z.to_nat v, Some s')
           | None => (O, None)
           end
  end.

End MT19937.

(** [int(field)] for ASCII fields: optional blanks, an optional sign, and
    one or more decimal digits. *)
Definition is_blank (c : Z) : bool :=
  (c =? 32) || ((9 <=? c) && (c <=? 13)).

Fixpoint strip_left (s : pystr) : pystr :=
  match s with
  | c :: s' => if is_blank c then strip_left s' else s
  | [] => []
  end.

Definition strip (s : pystr) : pystr := rev (strip_left (rev (strip_left s))).

Fixpoint digits_value (acc : Z) (s : pystr) : option Z :=
  match s with
  | [] => Some acc
  | c :: s' =>
      if (48 <=? c) && (c <=? 57) then digits_value (acc * 10 + (c - 48)) s' else None
  end.

Definition ascii_int (s : pystr) : option Z :=
  match strip s with
  | [] => None
  | 45 :: (_ :: _) as ds => Z.opp <$> digits_value 0 ds
  | 43 :: (_ :: _) as ds => digits_value 0 ds
  | ds => digits_value 0 ds
  end.

Definition ramp (s : Z) (sh : shape) : tensor float :=
  let cell_value (k : nat) : float :=
    PrimFloat.of_uint63 (Uint63.of_Z ((s + Z.of_nat k) mod 1024)) in
  Tensor sh
    (map (fun b =>
       map (fun c =>
         map (fun y =>
           map (fun x =>
                  cell_value (((b * dimC sh + c) * dimH sh + y) * dimW sh + x)%nat)
               (seq 0 (dimW sh)))
           (seq 0 (dimH sh)))
         (seq 0 (dimC sh)))
       (seq 0 (dimB sh))).

Definition quoted (s : pystr) : pystr := [34] ++ s ++ [34].

Definition one_field_json (v : verification) : pystr :=
  py "{" ++ quoted (py "key_hash") ++ py ": " ++ quoted (v_artist_key_hash v) ++ py "}".

#[local] Program Instance reference_platform : Platform := {|
  elem := float;
  ezero := 0%float;
  emul := PrimFloat.mul;
  eadd := PrimFloat.add;
  randn := fun s sh => Ok (ramp s sh);
  rng_state := option MT19937.state;
  mt19937_seed := fun s => Some (MT19937.mt19937_seed s);
  random_interval := MT19937.random_interval;
  py_int := ascii_int;
  json_dumps := one_field_json;
  negative_block_shuffle := fun _ _ _ => Raise RuntimeError
|}.
Next Obligation.
  intros s sh t [= <-]. split; [reflexivity|].
  unfold tensor_wf, grid_wf, ramp; simpl.
  rewrite length_map, length_seq. split; [reflexivity|].
  apply Forall_forall. intros img (b & -> & _)%list_elem_of_fmap.
  rewrite length_map, length_seq. split; [reflexivity|].
  apply Forall_forall. intros g (c & -> & _)%list_elem_of_fmap.
  rewrite length_map, length_seq. split; [reflexivity|].
  apply Forall_forall. intros r (y & -> & _)%list_elem_of_fmap.
  by rewrite length_map, length_seq.
Qed.
Next Obligation.
  intros st m. unfold MT19937.random_interval.
  destruct st as [s|]; [|simpl; lia].
  destruct (m =? 0)%nat; [simpl; lia|].
  destruct (MT19937.interval_loop _ _ _ _) as [[v s']|] eqn:Hloop; [|simpl; lia].
  assert (Hle : v <= Z.of_nat m); [|simpl; lia].
  revert Hloop. generalize MT19937.draw_limit, s.
  induction n as [|fuel IH]; intros s0; simpl; [discriminate|].
  destruct (if Z.of_nat m <=? 4294967295 then _ else _) as [w st1].
  destruct (Z.land w _ <=? Z.of_nat m) eqn:Hw.
  - intros [= <- <-]. by apply Z.leb_le.
  - apply IH.
Qed.

(** ** The vocabulary of the statements *)

(** What two runs of the stage are compared on: the latent handed to the
    sampler, the signature string, and the fingerprint and seed written to
    the provenance record. *)
Definition same_signing `{Platform} {X : Type} (r1 r2 : result (stage_out X)) : Prop :=
  match r1, r2 with
  | Ok o1, Ok o2 =>
      signed_latent o1 = signed_latent o2 /\
      signature o1 = signature o2 /\
      v_artist_key_hash <$> verification_info o1
        = v_artist_key_hash <$> verification_info o2 /\
      v_crypto_seed <$> verification_info o1
        = v_crypto_seed <$> verification_info o2
  | Raise e1, Raise e2 => e1 = e2
  | _, _ => False
  end.

Definition same_fingerprint (r1 r2 : result Identity) : Prop :=
  match r1, r2 with
  | Ok i1, Ok i2 => key_hash i1 = key_hash i2 /\ seed i1 = seed i2
  | Raise e1, Raise e2 => e1 = e2
  | _, _ => False
  end.

Definition same_identity_fields (now1 now2 : float) (r1 r2 : result Identity) : Prop :=
  match r1, r2 with
  | Ok i1, Ok i2 =>
      key_hash i1 = key_hash i2 /\ seed i1 = seed i2 /\
      artist_key_length i1 = artist_key_length i2 /\ id_shape i1 = id_shape i2 /\
      timestamp i1 = now1 /\ timestamp i2 = now2
  | Raise e1, Raise e2 => e1 = e2
  | _, _ => False
  end.

Section Vocabulary.
Local Open Scope nat_scope.

(** The double loop of [_shuffle_pixels] and [_shuffle_blocks]: every slice
    [shuffled[b, c]] is replaced by what [f b c] makes of it. *)
Definition slice_loop {E : Type} (t : tensor E)
    (f : nat -> nat -> grid E -> result (grid E)) : result (tensor E) :=
  for_range (dimB (tshape t)) (fun b shuffled =>
    for_range (dimC (tshape t)) (fun c shuffled =>
      g <-- f b c (slice_at shuffled b c) ;; Ok (set_slice shuffled b c g)) shuffled) t.

(** The data after the slices before [(b', c')] were replaced. *)
Definition replaced {E : Type} (F : nat -> nat -> grid E) (b' c' : nat)
    (data : list (list (grid E))) : list (list (grid E)) :=
  imap (fun b img =>
          imap (fun c g => if (b <? b') || ((b =? b') && (c <? c')) then F b c else g)
               img) data.

(** The slice that a slice function leaves, the empty grid if it raises. *)
Definition slice_result {E : Type} (r : result (grid E)) : grid E :=
  match r with
  | Ok g => g
  | Raise _ => []
  end.

(** The seed of the generator of slice [(b, c)] in pixel mode *)
Definition channel_seed (identity : Identity) (C b c : nat) : Z :=
  (seed identity + Z.of_nat b * Z.of_nat C + Z.of_nat c)%Z.

(** The [i]-th [s]-by-[s] block of a grid with [bw] blocks per row, in
    row-major order. *)
Definition block_at {E : Type} (s bw : nat) (g : grid E) (i : nat) : grid E :=
  sub_block g (i / bw * s) (i mod bw * s) s.

(** The position of [d] in [l] *)
Fixpoint index_of (d : nat) (l : list nat) : nat :=
  match l with
  | [] => 0
  | v :: l' => if v =? d then 0 else S (index_of d l')
  end.

(** The flat index of the input cell that the block shuffle copies to the
    flat index [k] of the output. *)
Definition src_index (s bw : nat) (perm : list nat) (k : nat) : nat :=
  let y := k / (bw * s) in
  let x := k mod (bw * s) in
  let idx := index_of (y / s * bw + x / s) perm in
  (idx / bw * s + y mod s) * (bw * s) + (idx mod bw * s + x mod s).

End Vocabulary.

(** A byte, a lower-case hexadecimal digit as a code point, and a surrogate
    code point *)
Definition is_byte (b : Z) : Prop := 0 <= b < 256.

Definition is_lower_hex (c : Z) : Prop := 48 <= c <= 57 \/ 97 <= c <= 102.

Definition is_surrogate (c : Z) : Prop := 0xD800 <= c <= 0xDFFF.

(** Latents, parameters and an identity to run the reference platform on *)
Definition demo_latent : latent_dict float unit :=
  LatentDict (ramp 7 (Shape 1 2 16 16)) [].

Definition demo_params : gen_params :=
  {| gp_seed := 0; gp_steps := 20; gp_cfg := 8%float;
     gp_sampler := py "euler"; gp_scheduler := py "normal" |}.

Definition alice_latent : tensor float := ramp 0%Z (Shape 1 1 16 24).

Definition alice_identity : Identity :=
  {| key_hash := py "2bd806c97f0e00af1a1fc3328fa763a9269723c8db8fac4f93af71db186d6e90";
     seed := 2131624111;
     artist_key_length := 5;
     id_shape := Shape 1 1 16 24;
     timestamp := 1%float |}.

(** A small latent with a second key, its identity for the key "alice", and
    what the stage makes of it in pixel mode at ratio 0.5 *)
Definition tiny_latent : latent_dict float unit :=
  LatentDict (ramp 7 (Shape 1 2 2 3)) [(py "noise_mask", tt)].

Definition tiny_identity : Identity :=
  {| key_hash := py "2bd806c97f0e00af1a1fc3328fa763a9269723c8db8fac4f93af71db186d6e90";
     seed := 2131624111;
     artist_key_length := 5;
     id_shape := Shape 1 2 2 3;
     timestamp := 1%float |}.

Definition tiny_signed : stage_out (H := reference_platform) unit :=
  StageOut (H := reference_platform)
    (LatentDict
       (Tensor (Shape 1 2 2 3)
          [[[[91; 92; 93.5]; [95; 95; 94.5]];
            [[98; 99; 98]; [99; 101.5; 101.5]]]]%float) [])
    (py "CN-2bd806c97f0e00af")
    (Some (_build_verification_info tiny_identity 0.5 (py "pixel") (Shape 1 2 2 3)
             demo_params)).

(** The identity of the key "artist58259143", whose seed is 2**32 - 3 *)
Definition late_identity : Identity :=
  {| key_hash := py "3400eba1fffffffd6b993626b2608b67beeeea55740c0ca82935b67ab4d69e1f";
     seed := 2 ^ 32 - 3;
     artist_key_length := 14;
     id_shape := Shape 1 4 2 2;
     timestamp := 1%float |}.

(** * Properties *)

(** Simplification of the option monad only. *)
Ltac osimpl := cbn [fmap option_fmap option_map mbind option_bind mret option_ret].

(** Case analysis on the comparisons of natural numbers in the goal. *)
Ltac case_nat_tests :=
  repeat match goal with
         | |- context [(?a <? ?b)%nat] => destruct (Nat.ltb_spec a b)
         | |- context [(?a <=? ?b)%nat] => destruct (Nat.leb_spec a b)
         | |- context [(?a =? ?b)%nat] => destruct (Nat.eqb_spec a b)
         end;
  cbn [orb andb negb];
  first [reflexivity | exfalso; lia | idtac].

(** numpy's documented outputs: [RandomState(42).permutation(10)] and
    [RandomState(0).permutation(10)], with no draw loop cut short. *)
Example permutation_seed_42 :
  (st <-- RandomState 42 ;; Ok (permutation st 10)) = Ok [8; 1; 5; 0; 7; 2; 9; 4; 3; 6]%nat /\
  (st <-- RandomState 42 ;; Ok (snd (shuffle st (seq 0 10)))) <> Ok None.
Proof. split; [vm_compute; reflexivity|]. vm_compute. discriminate. Qed.

Example permutation_seed_0 :
  (st <-- RandomState 0 ;; Ok (permutation st 10)) = Ok [2; 8; 4; 9; 1; 6; 7; 3; 0; 5]%nat.
Proof. vm_compute. reflexivity. Qed.
Example sha256_abc :
  hex (sha256 [97; 98; 99]) =
  py "ba7816bf8f01cfea414140de5dae2223b00361a396177a9cb410ff61f20015ad".
Proof. vm_compute. reflexivity. Qed.

Example sha256_empty :
  hex (sha256 []) =
  py "e3b0c44298fc1c149afbf4c8996fb92427ae41e4649b934ca495991b7852b855".
Proof. vm_compute. reflexivity. Qed.

Lemma ramp_wf (s : Z) (sh : shape) : tshape (ramp s sh) = sh /\ tensor_wf (ramp s sh).
Proof. exact (randn_wf (Platform := reference_platform) s sh _ eq_refl). Qed.

(** ** Binary64 comparisons *)

Lemma SFcompare_antisym a b :
  SFcompare b a = CompOpp <$> SFcompare a b.
Proof.
  destruct a as [sa|sa| |sa ma ea], b as [sb|sb| |sb mb eb];
    cbn [SFcompare fmap option_fmap option_map];
    try reflexivity; try (by destruct sa); try (by destruct sb);
    try (by destruct sa, sb).
  destruct sa, sb; cbn [CompOpp]; try reflexivity;
    rewrite (Z.compare_antisym ea eb); destruct (ea ?= eb)%Z; cbn [CompOpp];
    try reflexivity;
    fold (Pos.compare ma mb); fold (Pos.compare mb ma);
    rewrite (Pos.compare_antisym ma mb); by destruct (ma ?= mb)%positive.
Qed.

(** [x <= y] excludes [y < x]. *)
Lemma float_leb_not_gt (x y : float) :
  PrimFloat.leb x y = true -> PrimFloat.ltb y x = false.
Proof.
  rewrite leb_spec, ltb_spec. unfold SFleb, SFltb.
  rewrite (SFcompare_antisym (Prim2SF x) (Prim2SF y)).
  destruct (SFcompare (Prim2SF x) (Prim2SF y)) as [[]|]; cbn;
    intros; try reflexivity; discriminate.
Qed.

Lemma Prim2SF_one : Prim2SF 1 = S754_finite false 4503599627370496 (-52).
Proof. vm_compute. reflexivity. Qed.

(** A ratio [r <= 1] that is not below 1 is the float 1. *)
Lemma float_le_one_not_lt (r : float) :
  PrimFloat.leb r 1 = true -> PrimFloat.ltb r 1 = false -> r = 1%float.
Proof.
  rewrite leb_spec, ltb_spec. unfold SFleb, SFltb. intros Hle Hlt.
  apply Prim2SF_inj. rewrite Prim2SF_one in *.
  destruct (SFcompare (Prim2SF r) _) as [[]|] eqn:Hc; try discriminate.
  destruct (Prim2SF r) as [s|s| |s m e]; cbn [SFcompare] in Hc; try discriminate;
    try (destruct s; discriminate).
  destruct s; [discriminate|].
  destruct (e ?= -52)%Z eqn:He; try discriminate.
  apply Z.compare_eq in He. subst e.
  assert (Hm : Pos.compare m 4503599627370496 = Eq)
    by exact (f_equal (fun o => match o with Some c => c | None => Lt end) Hc).
  apply Pos.compare_eq in Hm. subst m. reflexivity.
Qed.

(** ** Identity derivation *)

Lemma take_hex (n : nat) (bs : bytes) :
  take (2 * n) (hex bs) = hex (take n bs).
Proof.
  revert bs. induction n as [|n IH]; intros [|b bs]; try reflexivity.
  replace (2 * S n)%nat with (S (S (2 * n))) by lia.
  cbn [hex flat_map app take]. f_equal. f_equal. apply IH.
Qed.

Lemma seed_range (artist_key : pystr) (sh : shape) (now : float) (identity : Identity) :
  _derive_crypto_identity artist_key sh now = Ok identity ->
  0 <= seed identity < 2 ^ 32.
Proof.
  unfold _derive_crypto_identity. destruct (encode_utf8 artist_key); [|discriminate].
  cbn [rbind]. intros [= <-]. cbn [seed]. apply Z.mod_pos_bound. lia.
Qed.

(** C2. For a secret string with UTF-8 bytes [encoded], identity derivation
    returns the hex form of SHA-256 of those bytes as [key_hash], the
    big-endian integer of the first 8 digest bytes modulo 2^32 as [seed],
    and the signature label is "CN-" followed by the first 16 hex characters
    of the digest; for the key "alice" the seed is 2131624111. *)
Theorem derive_crypto_identity_spec
    (artist_key : pystr) (encoded : bytes) (sh : shape) (now : float) :
  artist_key <> [] ->
  encode_utf8 artist_key = Ok encoded ->
  exists identity,
    _derive_crypto_identity artist_key sh now = Ok identity /\
    key_hash identity = hex (sha256 encoded) /\
    seed identity = int_from_bytes_big (take 8 (sha256 encoded)) mod 2 ^ 32 /\
    0 <= seed identity < 2 ^ 32 /\
    signature_of identity = py "CN-" ++ take 16 (key_hash identity) /\
    signature_of identity = py "CN-" ++ hex (take 8 (sha256 encoded)) /\
    (artist_key = py "alice" ->
       seed identity = 2131624111 /\
       key_hash identity =
         py "2bd806c97f0e00af1a1fc3328fa763a9269723c8db8fac4f93af71db186d6e90" /\
       signature_of identity = py "CN-2bd806c97f0e00af").
Proof.
  intros _ Henc.
  destruct (_derive_crypto_identity artist_key sh now) as [identity|e] eqn:Hd;
    unfold _derive_crypto_identity in Hd; rewrite Henc in Hd; cbn [rbind] in Hd;
    [|discriminate].
  exists identity. split; [reflexivity|].
  injection Hd as <-. cbn [key_hash seed]. unfold signature_of. cbn [key_hash].
  repeat split.
  - apply Z.mod_pos_bound. lia.
  - apply Z.mod_pos_bound. lia.
  - f_equal. apply (take_hex 8).
  - subst artist_key. vm_compute in Henc. injection Henc as <-.
    vm_compute. reflexivity.
  - subst artist_key. vm_compute in Henc. injection Henc as <-.
    vm_compute. reflexivity.
  - subst artist_key. vm_compute in Henc. injection Henc as <-.
    vm_compute. reflexivity.
Qed.

Lemma derive_crypto_identity_spec_witness :
  py "alice" <> [] /\
  encode_utf8 (py "alice") = Ok [97; 108; 105; 99; 101] /\
  exists identity,
    _derive_crypto_identity (py "alice") (Shape 1 4 64 64) 0%float = Ok identity /\
    seed identity = 2131624111.
Proof.
  assert (H1 : py "alice" <> []) by discriminate.
  assert (H2 : encode_utf8 (py "alice") = Ok [97; 108; 105; 99; 101]) by reflexivity.
  split; [exact H1|]. split; [exact H2|].
  destruct (derive_crypto_identity_spec (py "alice") _ (Shape 1 4 64 64) 0%float H1 H2)
    as (identity & Hd & _ & _ & _ & _ & _ & Halice).
  exists identity. split; [exact Hd|]. exact (proj1 (Halice eq_refl)).
Defined.

(** ** The signing stage *)

Section Stage.
Context `{Platform}.

Lemma pystr_eqb_false (a b : pystr) : a <> b -> pystr_eqb a b = false.
Proof. intros Hne. unfold pystr_eqb. by apply bool_decide_eq_false_2. Qed.

(** The shuffle reads nothing of the identity but its seed. *)
Lemma shuffle_latent_seed_only (t : tensor elem) (id1 id2 : Identity) (mode : pystr) :
  seed id1 = seed id2 ->
  _shuffle_latent t id1 mode = _shuffle_latent t id2 mode.
Proof.
  intros Hs. unfold _shuffle_latent, _shuffle_blocks, _shuffle_pixels.
  rewrite Hs. reflexivity.
Qed.

(** Two clock readings give identities that differ in the timestamp only. *)
Lemma derive_clock_independent (artist_key : pystr) (sh : shape) (now1 now2 : float) :
  match _derive_crypto_identity artist_key sh now1,
        _derive_crypto_identity artist_key sh now2 with
  | Ok i1, Ok i2 =>
      key_hash i1 = key_hash i2 /\ seed i1 = seed i2 /\
      artist_key_length i1 = artist_key_length i2 /\ id_shape i1 = id_shape i2
  | Raise e1, Raise e2 => e1 = e2
  | _, _ => False
  end.
Proof.
  unfold _derive_crypto_identity.
  destruct (encode_utf8 artist_key); cbn [rbind]; [|reflexivity].
  cbn [key_hash seed artist_key_length id_shape]. repeat split.
Qed.

(** An exception inside the [try] block is answered by the fallback. *)
Lemma sign_stage_try_fallback {X : Type} (latent_image : latent_dict elem X)
    (gp : gen_params) (artist_key : pystr) (crypto_blend : float)
    (shuffle_mode : pystr) (now : float) (identity : Identity) (e : exn) :
  PrimFloat.ltb blend_threshold crypto_blend = true ->
  _derive_crypto_identity artist_key (tshape (samples latent_image)) now = Ok identity ->
  apply_crypto_noise (samples latent_image) identity crypto_blend shuffle_mode gp = Raise e ->
  sign_stage latent_image gp artist_key crypto_blend shuffle_mode now
  = Ok (StageOut latent_image (py "error") None).
Proof.
  intros Hr Hd Ha. unfold sign_stage. rewrite Hr, Hd. cbn [rbind]. rewrite Ha.
  reflexivity.
Qed.

(** An exception of the derivation leaves [sign_stage] as it is. *)
Lemma sign_stage_derivation_error {X : Type} (latent_image : latent_dict elem X)
    (gp : gen_params) (artist_key : pystr) (crypto_blend : float)
    (shuffle_mode : pystr) (now : float) (e : exn) :
  PrimFloat.ltb blend_threshold crypto_blend = true ->
  encode_utf8 artist_key = Raise e ->
  sign_stage latent_image gp artist_key crypto_blend shuffle_mode now = Raise e.
Proof.
  intros Hr He. unfold sign_stage, _derive_crypto_identity. rewrite Hr, He.
  reflexivity.
Qed.

(** C1. Two invocations of the signing stage on the same latent, key, ratio
    and shuffle mode, at different clock readings and with any generation
    parameters, produce the same blended latent, the same signature string
    and the same fingerprint (and both raise the same exception if one
    does); the two derived identities carry the same key_hash and seed. *)
Theorem sign_stage_deterministic {X : Type} (latent_image : latent_dict elem X)
    (gp1 gp2 : gen_params) (artist_key : pystr) (crypto_blend : float)
    (shuffle_mode : pystr) (now1 now2 : float) :
  PrimFloat.ltb blend_threshold crypto_blend = true ->
  same_signing
    (sign_stage latent_image gp1 artist_key crypto_blend shuffle_mode now1)
    (sign_stage latent_image gp2 artist_key crypto_blend shuffle_mode now2) /\
  same_fingerprint
    (_derive_crypto_identity artist_key (tshape (samples latent_image)) now1)
    (_derive_crypto_identity artist_key (tshape (samples latent_image)) now2).
Proof.
  intros Hr. unfold same_signing, same_fingerprint, sign_stage. rewrite Hr.
  pose proof (derive_clock_independent artist_key (tshape (samples latent_image))
                now1 now2) as Hd.
  destruct (_derive_crypto_identity artist_key _ now1) as [i1|e1],
           (_derive_crypto_identity artist_key _ now2) as [i2|e2];
    try contradiction; cbn [rbind]; [|split; assumption].
  destruct Hd as (Hk & Hs & _ & _). split; [|split; assumption].
  unfold apply_crypto_noise. rewrite Hs.
  destruct (randn (seed i2) _) as [base|e]; cbn [rbind]; [|repeat split].
  rewrite (shuffle_latent_seed_only base i1 i2 shuffle_mode Hs).
  destruct (_shuffle_latent base i2 shuffle_mode) as [noise|e]; cbn [rbind];
    [|repeat split].
  cbn [signed_latent signature verification_info fmap option_fmap option_map
       _build_verification_info v_artist_key_hash v_crypto_seed].
  unfold signature_of. rewrite Hk, Hs. repeat split.
Qed.

(** C5. At a blend ratio at or below the threshold the stage is skipped:
    the latent handed to the sampler is the input latent, the signature is
    "unsigned", and the verification payload is the empty object. *)
Theorem blend_below_threshold_short_circuit {X R : Type}
    (common_ksampler : latent_dict elem X -> result R)
    (latent_image : latent_dict elem X) (gp : gen_params) (artist_key : pystr)
    (crypto_blend : float) (shuffle_mode : pystr) (now : float) :
  PrimFloat.leb crypto_blend blend_threshold = true ->
  sign_stage latent_image gp artist_key crypto_blend shuffle_mode now
  = Ok (StageOut latent_image (py "unsigned") None) /\
  sample common_ksampler latent_image gp artist_key crypto_blend shuffle_mode now
  = (r <-- common_ksampler latent_image ;; Ok (r, py "unsigned", py "{}")).
Proof.
  intros Hr. apply float_leb_not_gt in Hr.
  assert (Hs : sign_stage latent_image gp artist_key crypto_blend shuffle_mode now
               = Ok (StageOut latent_image (py "unsigned") None)).
  { unfold sign_stage. rewrite Hr. reflexivity. }
  split; [exact Hs|]. unfold sample. rewrite Hs. reflexivity.
Qed.

(** C4, at the failing input. A key that holds a lone surrogate has no
    UTF-8 form: the derivation, which [sample] calls before its [try],
    raises, and the exception leaves [sample]. *)
Theorem sample_surrogate_key_raises {X R : Type}
    (common_ksampler : latent_dict elem X -> result R)
    (latent_image : latent_dict elem X) (gp : gen_params)
    (shuffle_mode : pystr) (now : float) :
  sample common_ksampler latent_image gp [0xD800] 0.5%float shuffle_mode now
  = Raise UnicodeEncodeError.
Proof.
  unfold sample.
  rewrite (sign_stage_derivation_error latent_image gp [0xD800] 0.5%float
             shuffle_mode now UnicodeEncodeError); reflexivity.
Qed.

(** C10, as amended. For every shuffle mode other than "pixel" whose second
    underscore-separated field is missing or is refused by [int], and every
    key that has a UTF-8 form, the stage does not raise: the original
    latent is passed through and the signature is "error". *)
Theorem shuffle_mode_unparsed_falls_back {X : Type} (latent_image : latent_dict elem X)
    (gp : gen_params) (artist_key : pystr) (encoded : bytes) (crypto_blend : float)
    (shuffle_mode : pystr) (now : float) :
  PrimFloat.ltb blend_threshold crypto_blend = true ->
  encode_utf8 artist_key = Ok encoded ->
  shuffle_mode <> py "pixel" ->
  match split_on 95 shuffle_mode !! 1%nat with
  | None => True
  | Some field => py_int field = None
  end ->
  sign_stage latent_image gp artist_key crypto_blend shuffle_mode now
  = Ok (StageOut latent_image (py "error") None).
Proof.
  intros Hr Henc Hpix Hfield.
  destruct (_derive_crypto_identity artist_key (tshape (samples latent_image)) now)
    as [identity|e] eqn:Hd.
  2: { unfold _derive_crypto_identity in Hd. rewrite Henc in Hd. discriminate. }
  assert (Hraise : forall base, exists e,
             _shuffle_latent base identity shuffle_mode = Raise e).
  { intros base. unfold _shuffle_latent. rewrite (pystr_eqb_false _ _ Hpix).
    destruct (split_on 95 shuffle_mode !! 1%nat) as [field|]; [|by eexists].
    rewrite Hfield. by eexists. }
  destruct (apply_crypto_noise (samples latent_image) identity crypto_blend
              shuffle_mode gp) as [[b i]|e] eqn:Ha.
  - exfalso. unfold apply_crypto_noise in Ha.
    destruct (randn _ _) as [base|]; cbn [rbind] in Ha; [|discriminate].
    destruct (Hraise base) as [e He]. rewrite He in Ha. discriminate.
  - by apply (sign_stage_try_fallback _ _ _ _ _ _ identity e).
Qed.

End Stage.

(** ** The stage on the reference platform *)

Lemma sign_stage_deterministic_witness :
  PrimFloat.ltb blend_threshold 0.5 = true /\
  same_signing
    (sign_stage (H := reference_platform) demo_latent demo_params (py "alice")
       0.5%float (py "block_8") 1%float)
    (sign_stage (H := reference_platform) demo_latent demo_params (py "alice")
       0.5%float (py "block_8") 2%float).
Proof.
  assert (Hr : PrimFloat.ltb blend_threshold 0.5 = true) by reflexivity.
  split; [exact Hr|].
  exact (proj1 (sign_stage_deterministic (H := reference_platform) demo_latent
                  demo_params demo_params (py "alice") 0.5%float (py "block_8")
                  1%float 2%float Hr)).
Defined.

Lemma blend_below_threshold_short_circuit_witness :
  PrimFloat.leb 0 blend_threshold = true /\
  sign_stage (H := reference_platform) demo_latent demo_params [0xD800] 0%float
    (py "block_8") 1%float
  = Ok (StageOut demo_latent (py "unsigned") None).
Proof.
  assert (Hr : PrimFloat.leb 0 blend_threshold = true) by reflexivity.
  split; [exact Hr|].
  exact (proj1 (blend_below_threshold_short_circuit (H := reference_platform)
                  (fun l => Ok l) demo_latent demo_params [0xD800] 0%float
                  (py "block_8") 1%float Hr)).
Defined.

Lemma shuffle_mode_unparsed_falls_back_witness :
  PrimFloat.ltb blend_threshold 0.5 = true /\
  encode_utf8 (py "alice") = Ok [97; 108; 105; 99; 101] /\
  py "block_x" <> py "pixel" /\
  split_on 95 (py "block_x") !! 1%nat = Some (py "x") /\
  ascii_int (py "x") = None /\
  sign_stage (H := reference_platform) demo_latent demo_params (py "alice")
    0.5%float (py "block_x") 1%float
  = Ok (StageOut demo_latent (py "error") None).
Proof.
  assert (Hr : PrimFloat.ltb blend_threshold 0.5 = true) by reflexivity.
  assert (He : encode_utf8 (py "alice") = Ok [97; 108; 105; 99; 101]) by reflexivity.
  assert (Hp : py "block_x" <> py "pixel") by discriminate.
  repeat (split; [first [exact Hr | exact He | exact Hp | reflexivity]|]).
  exact (shuffle_mode_unparsed_falls_back (H := reference_platform) demo_latent
           demo_params (py "alice") _ 0.5%float (py "block_x") 1%float
           Hr He Hp eq_refl).
Defined.

(** C10, the counterexample. The mode "foo_8" is neither "pixel" nor of the
    form "block_<integer>", yet [int("foo_8".split("_")[1])] is 8: the
    latent is shuffled in 8-by-8 blocks and signed, not passed through. *)
Lemma shuffle_mode_foo_8_is_signed :
  let out := sign_stage (H := reference_platform) demo_latent demo_params (py "alice")
               0.5%float (py "foo_8") 1%float in
  py "foo_8" <> py "pixel" /\
  take 6 (py "foo_8") <> py "block_" /\
  (o <-- out ;; Ok (signature o)) = Ok (py "CN-2bd806c97f0e00af") /\
  (o <-- out ;; Ok (signature o)) <> Ok (py "error") /\
  (o <-- out ;; Ok (tcell (samples (signed_latent o)) 0 0 0 0)) = Ok (Some 91%float) /\
  tcell (samples demo_latent) 0 0 0 0 = Some 7%float.
Proof.
  cbv zeta.
  split; [discriminate|]. split; [discriminate|].
  split; [vm_compute; reflexivity|].
  split; [vm_compute; discriminate|].
  split; vm_compute; reflexivity.
Qed.

(** C7, at the failing input. The key "artist58259143" derives the seed
    2**32 - 3; on a four-channel latent the channel seed of channel 3 is
    2**32, [RandomState] refuses it, [_shuffle_pixels] raises [ValueError]
    and the stage falls back to the unsigned latent. *)
Theorem pixel_shuffle_seed_overflow :
  let latent := LatentDict (ramp 7 (Shape 1 4 2 2)) ([] : list (pystr * unit)) in
  let identity := _derive_crypto_identity (py "artist58259143") (Shape 1 4 2 2) 1%float in
  (i <-- identity ;; Ok (seed i)) = Ok (2 ^ 32 - 3) /\
  (i <-- identity ;; RandomState (H := reference_platform) (seed i + 0 * 4 + 3))
  = Raise ValueError /\
  (i <-- identity ;; _shuffle_pixels (H := reference_platform) (samples latent) i)
  = Raise ValueError /\
  sign_stage (H := reference_platform) latent demo_params (py "artist58259143")
    0.5%float (py "pixel") 1%float
  = Ok (StageOut latent (py "error") None).
Proof.
  cbv zeta. repeat split; vm_compute; reflexivity.
Qed.

(** ** Identity records of two invocations *)

(** C9, as amended. Two derivations from one key and one shape agree on
    key_hash, seed, key length and shape; the timestamp of each record is
    the clock reading of its own invocation. *)
Theorem derive_identity_equal_but_timestamp
    (artist_key : pystr) (sh : shape) (now1 now2 : float) :
  same_identity_fields now1 now2
    (_derive_crypto_identity artist_key sh now1)
    (_derive_crypto_identity artist_key sh now2).
Proof.
  unfold same_identity_fields, _derive_crypto_identity.
  destruct (encode_utf8 artist_key); cbn [rbind]; [|reflexivity].
  cbn [key_hash seed artist_key_length id_shape timestamp]. repeat split.
Qed.

(** C9, the counterexample. Derived one second apart, the two records of
    the key "alice" differ: their timestamps are not equal. *)
Lemma derive_identity_timestamps_differ :
  _derive_crypto_identity (py "alice") (Shape 1 4 64 64) 1%float
  <> _derive_crypto_identity (py "alice") (Shape 1 4 64 64) 2%float.
Proof.
  intros Heq.
  apply (f_equal (fun r => match r with
                           | Ok i => PrimFloat.eqb (timestamp i) 1
                           | Raise _ => false
                           end)) in Heq.
  vm_compute in Heq. discriminate Heq.
Qed.

(** ** The blend *)

Section Blend.
Context `{Platform}.
Local Open Scope nat_scope.

Lemma tcell_lookup {E : Type} (t : tensor E) (b c y x : nat) :
  tcell t b c y x
  = (img ← tdata t !! b; g ← img !! c; r ← g !! y; r !! x).
Proof.
  unfold tcell, cell, slice_at.
  destruct (tdata t !! b) as [img|]; [|reflexivity]. cbn.
  destruct (img !! c) as [g|]; reflexivity.
Qed.

Lemma tcell_tmap {E : Type} (f : E -> E) (t : tensor E) (b c y x : nat) :
  tcell (tmap f t) b c y x = f <$> tcell t b c y x.
Proof.
  rewrite !tcell_lookup. unfold tmap. cbn [tdata].
  rewrite list_lookup_fmap. destruct (tdata t !! b) as [img|]; [|reflexivity]. cbn.
  rewrite list_lookup_fmap. destruct (img !! c) as [g|]; [|reflexivity]. cbn.
  rewrite list_lookup_fmap. destruct (g !! y) as [r|]; [|reflexivity]. cbn.
  apply list_lookup_fmap.
Qed.

Lemma tcell_tzip {E : Type} (f : E -> E -> E) (t1 t2 : tensor E) (b c y x : nat) :
  tcell (tzip f t1 t2) b c y x
  = (u ← tcell t1 b c y x; v ← tcell t2 b c y x; Some (f u v)).
Proof.
  rewrite !tcell_lookup. unfold tzip. cbn [tdata].
  rewrite lookup_zip_with.
  destruct (tdata t1 !! b) as [img1|]; [|reflexivity]. cbn.
  destruct (tdata t2 !! b) as [img2|]; cbn.
  2: { destruct (img1 !! c) as [g1|]; [|reflexivity]. cbn.
       destruct (g1 !! y) as [r1|]; [|reflexivity]. cbn.
       by destruct (r1 !! x). }
  rewrite lookup_zip_with.
  destruct (img1 !! c) as [g1|]; [|reflexivity]. cbn.
  destruct (img2 !! c) as [g2|]; cbn.
  2: { destruct (g1 !! y) as [r1|]; [|reflexivity]. cbn. by destruct (r1 !! x). }
  rewrite lookup_zip_with.
  destruct (g1 !! y) as [r1|]; [|reflexivity]. cbn.
  destruct (g2 !! y) as [r2|]; cbn.
  2: { by destruct (r1 !! x). }
  apply lookup_zip_with.
Qed.

(** C3. For a ratio in [0, 1] above the threshold: below 1 every element
    of the blend is [original * (1 - r) + shuffled * r]; otherwise the ratio
    is 1 and the blend is the shuffled noise tensor itself. *)
Theorem blend_spec (original shuffled : tensor elem) (r : float) :
  tshape original = tshape shuffled ->
  PrimFloat.ltb blend_threshold r = true ->
  PrimFloat.leb r 1 = true ->
  (PrimFloat.ltb r 1 = true ->
     tshape (blend original shuffled r) = tshape original /\
     forall b c y x,
       tcell (blend original shuffled r) b c y x
       = (o ← tcell original b c y x;
          s ← tcell shuffled b c y x;
          Some (eadd (emul o (PrimFloat.sub 1 r)) (emul s r)))) /\
  (PrimFloat.ltb r 1 = false ->
     r = 1%float /\ blend original shuffled r = shuffled) /\
  blend original shuffled 1 = shuffled.
Proof.
  intros _ _ Hle. split; [|split].
  - intros Hlt. unfold blend. rewrite Hlt. split; [reflexivity|].
    intros b c y x. rewrite tcell_tzip, !tcell_tmap.
    destruct (tcell original b c y x); [|reflexivity]. cbn.
    destruct (tcell shuffled b c y x); reflexivity.
  - intros Hlt. split; [by apply float_le_one_not_lt|].
    unfold blend. rewrite Hlt. reflexivity.
  - reflexivity.
Qed.

End Blend.

Lemma blend_spec_witness :
  let original := ramp 3 (Shape 1 1 1 2) in
  let shuffled := ramp 8 (Shape 1 1 1 2) in
  tshape original = tshape shuffled /\
  PrimFloat.ltb blend_threshold 0.25 = true /\
  PrimFloat.leb 0.25 1 = true /\
  tcell (blend (H := reference_platform) original shuffled 0.25) 0 0 0 1
  = Some 5.25%float.
Proof.
  intros original shuffled.
  assert (Hs : tshape original = tshape shuffled) by reflexivity.
  assert (Ht : PrimFloat.ltb blend_threshold 0.25 = true) by reflexivity.
  assert (Hl : PrimFloat.leb 0.25 1 = true) by reflexivity.
  split; [exact Hs|]. split; [exact Ht|]. split; [exact Hl|].
  destruct (blend_spec (H := reference_platform) original shuffled 0.25%float
              Hs Ht Hl) as [Hlin _].
  destruct (Hlin eq_refl) as [_ Hcell].
  rewrite Hcell. vm_compute. reflexivity.
Defined.

(** ** numpy's permutation is a bijection *)

Section PermutationFacts.
Context `{Platform}.
Local Open Scope nat_scope.

Lemma swap_Permutation (x : list nat) (i j : nat) : swap x i j ≡ₚ x.
Proof.
  unfold swap. destruct (x !! i) as [xi|] eqn:Hi; [|reflexivity].
  destruct (x !! j) as [xj|] eqn:Hj; [|reflexivity].
  by apply Permutation_insert_swap.
Qed.

Lemma shuffle_steps_Permutation (idxs : list nat) (acc : list nat * rng_state) :
  fst (fold_left shuffle_step idxs acc) ≡ₚ fst acc.
Proof.
  revert acc. induction idxs as [|i idxs IH]; intros acc; [reflexivity|].
  cbn [fold_left]. rewrite IH. unfold shuffle_step.
  destruct (random_interval (snd acc) i) as [j st']. cbn [fst].
  apply swap_Permutation.
Qed.

(** Every swap of the shuffle exchanges two cells of the array: [j <= i]
    by the contract of [random_interval], and [i] is below the length. *)
Lemma shuffle_step_in_range (acc : list nat * rng_state) (i : nat) :
  i < length (fst acc) ->
  is_Some (fst acc !! i) /\
  is_Some (fst acc !! fst (random_interval (snd acc) i)).
Proof.
  intros Hi. pose proof (random_interval_le (snd acc) i) as Hj.
  split; apply lookup_lt_is_Some; lia.
Qed.

Lemma permutation_Permutation (st : rng_state) (n : nat) :
  permutation st n ≡ₚ seq 0 n.
Proof. unfold permutation, shuffle. apply shuffle_steps_Permutation. Qed.

Lemma permutation_length (st : rng_state) (n : nat) :
  length (permutation st n) = n.
Proof. by rewrite permutation_Permutation, length_seq. Qed.

Lemma permutation_NoDup (st : rng_state) (n : nat) : NoDup (permutation st n).
Proof. rewrite permutation_Permutation. apply NoDup_seq. Qed.

Lemma permutation_elem_of (st : rng_state) (n k : nat) :
  k ∈ permutation st n <-> k < n.
Proof. rewrite permutation_Permutation, elem_of_seq. lia. Qed.

Lemma permutation_lookup (st : rng_state) (n i : nat) :
  i < n -> exists d, permutation st n !! i = Some d /\ d < n.
Proof.
  intros Hi. destruct (permutation st n !! i) as [d|] eqn:Hd.
  - exists d. split; [reflexivity|]. apply (permutation_elem_of st).
    by apply list_elem_of_lookup_2 in Hd.
  - apply lookup_ge_None in Hd. rewrite permutation_length in Hd. lia.
Qed.

Lemma permutation_lookup_inj (st : rng_state) (n i j d : nat) :
  permutation st n !! i = Some d -> permutation st n !! j = Some d -> i = j.
Proof. apply NoDup_lookup, permutation_NoDup. Qed.

End PermutationFacts.

(** ** Loops over the slices of a tensor *)

Section Loops.
Context {E : Type}.
Local Open Scope nat_scope.

Lemma for_range_S {S : Type} (n : nat) (body : nat -> S -> result S) (s : S) :
  for_range (Datatypes.S n) body s = (s' <-- for_range n body s ;; body n s').
Proof. unfold for_range. rewrite seq_S, fold_left_app. reflexivity. Qed.

Lemma replaced_none (F : nat -> nat -> grid E) (data : list (list (grid E))) :
  replaced F 0 0 data = data.
Proof.
  unfold replaced. apply list_eq. intros b. rewrite list_lookup_imap.
  destruct (data !! b) as [img|]; [|reflexivity]. osimpl. f_equal.
  apply list_eq. intros c. rewrite list_lookup_imap.
  destruct (img !! c) as [g|]; [|reflexivity]. osimpl.
  case_nat_tests.
Qed.

Lemma replaced_next_row (F : nat -> nat -> grid E) (b' C : nat)
    (data : list (list (grid E))) :
  Forall (fun img => length img = C) data ->
  replaced F b' C data = replaced F (S b') 0 data.
Proof.
  intros Hwf. unfold replaced. apply list_eq. intros b. rewrite !list_lookup_imap.
  destruct (data !! b) as [img|] eqn:Hb; [|reflexivity]. osimpl. f_equal.
  assert (Hlen : length img = C).
  { rewrite Forall_forall in Hwf. apply Hwf. by eapply list_elem_of_lookup_2. }
  apply list_eq. intros c. rewrite !list_lookup_imap.
  destruct (img !! c) as [g|] eqn:Hc; [|reflexivity]. osimpl. f_equal.
  apply lookup_lt_Some in Hc. case_nat_tests.
Qed.

Lemma replaced_set_slice (F : nat -> nat -> grid E) (b' c' : nat) (sh : shape)
    (data : list (list (grid E))) :
  set_slice (Tensor sh (replaced F b' c' data)) b' c' (F b' c')
  = Tensor sh (replaced F b' (S c') data).
Proof.
  unfold set_slice, replaced. cbn [tshape tdata]. f_equal.
  apply list_eq. intros b. destruct (decide (b = b')) as [->|Hbb].
  - rewrite list_lookup_alter_eq, !list_lookup_imap.
    destruct (data !! b') as [img|] eqn:Hb; [|reflexivity]. osimpl. f_equal.
    apply list_eq. intros c.
    destruct (decide (c = c')) as [->|Hne].
    + rewrite list_lookup_imap.
      destruct (img !! c') as [g|] eqn:Hc; osimpl.
      * rewrite list_lookup_insert_eq
          by (rewrite length_imap; by eapply lookup_lt_Some).
        f_equal. case_nat_tests.
      * rewrite list_insert_ge by (rewrite length_imap; by apply lookup_ge_None).
        rewrite list_lookup_imap, Hc. reflexivity.
    + rewrite list_lookup_insert_ne by done. rewrite !list_lookup_imap.
      destruct (img !! c) as [g|]; [|reflexivity]. osimpl. f_equal.
      case_nat_tests.
  - rewrite list_lookup_alter_ne by done. rewrite !list_lookup_imap.
    destruct (data !! b) as [img|] eqn:Hb; [|reflexivity]. osimpl. f_equal.
    apply list_eq. intros c. rewrite !list_lookup_imap.
    destruct (img !! c) as [g|]; [|reflexivity]. osimpl. f_equal.
    case_nat_tests.
Qed.

Lemma replaced_all (F : nat -> nat -> grid E) (B : nat)
    (data : list (list (grid E))) :
  length data = B ->
  replaced F B 0 data = imap (fun b img => imap (fun c _ => F b c) img) data.
Proof.
  intros Hlen. unfold replaced. apply list_eq. intros b. rewrite !list_lookup_imap.
  destruct (data !! b) as [img|] eqn:Hb; [|reflexivity]. osimpl. f_equal.
  apply lookup_lt_Some in Hb.
  apply list_eq. intros c. rewrite !list_lookup_imap.
  destruct (img !! c) as [g|]; [|reflexivity]. osimpl. f_equal.
  case_nat_tests.
Qed.

Lemma for_range_raise_from {S : Type} (n k : nat) (body : nat -> S -> result S)
    (s : S) (e : exn) :
  for_range k body s = Raise e -> k <= n -> for_range n body s = Raise e.
Proof.
  intros Hk. induction n as [|n IH]; intros Hle.
  - by replace k with 0 in Hk by lia.
  - destruct (decide (k = Datatypes.S n)) as [->|Hne]; [done|].
    rewrite for_range_S, IH by lia. reflexivity.
Qed.

Lemma slice_at_replaced (F : nat -> nat -> grid E) (sh : shape)
    (data : list (list (grid E))) (b' c' : nat) :
  slice_at (Tensor sh (replaced F b' c' data)) b' c' = slice_at (Tensor sh data) b' c'.
Proof.
  unfold slice_at, replaced. cbn [tdata]. rewrite list_lookup_imap.
  destruct (data !! b') as [img|]; [|reflexivity]. osimpl.
  rewrite list_lookup_imap. destruct (img !! c') as [g|]; [|reflexivity]. osimpl.
  f_equal. case_nat_tests.
Qed.

Lemma inner_loop_prefix (t : tensor E) (f : nat -> nat -> grid E -> result (grid E))
    (F : nat -> nat -> grid E) (b' k : nat) :
  (forall c, c < k -> f b' c (slice_at t b' c) = Ok (F b' c)) ->
  for_range k (fun c shuffled =>
      g <-- f b' c (slice_at shuffled b' c) ;; Ok (set_slice shuffled b' c g))
    (Tensor (tshape t) (replaced F b' 0 (tdata t)))
  = Ok (Tensor (tshape t) (replaced F b' k (tdata t))).
Proof.
  induction k as [|k IH]; intros Hf; [reflexivity|].
  rewrite for_range_S, IH by (intros; apply Hf; lia). cbn [rbind].
  rewrite slice_at_replaced.
  replace (slice_at (Tensor (tshape t) (tdata t)) b' k) with (slice_at t b' k)
    by reflexivity.
  rewrite (Hf k) by lia. cbn [rbind]. f_equal. apply replaced_set_slice.
Qed.

Lemma outer_loop_prefix (t : tensor E) (f : nat -> nat -> grid E -> result (grid E))
    (F : nat -> nat -> grid E) (k : nat) :
  tensor_wf t ->
  (forall b c, b < k -> c < dimC (tshape t) -> f b c (slice_at t b c) = Ok (F b c)) ->
  for_range k (fun b shuffled =>
      for_range (dimC (tshape t)) (fun c shuffled =>
          g <-- f b c (slice_at shuffled b c) ;; Ok (set_slice shuffled b c g))
        shuffled) t
  = Ok (Tensor (tshape t) (replaced F k 0 (tdata t))).
Proof.
  intros [HB Himg].
  assert (HC : Forall (fun img => length img = dimC (tshape t)) (tdata t)).
  { eapply Forall_impl; [exact Himg|]. by intros img [? _]. }
  induction k as [|k IH]; intros Hf.
  - cbn. rewrite replaced_none. by destruct t.
  - rewrite for_range_S, IH by (intros; apply Hf; lia). cbn [rbind].
    rewrite inner_loop_prefix by (intros; apply Hf; lia).
    f_equal. f_equal. by apply replaced_next_row.
Qed.

(** When every slice function succeeds, the loop replaces every slice. *)
Lemma slice_loop_ok (t : tensor E) (f : nat -> nat -> grid E -> result (grid E))
    (F : nat -> nat -> grid E) :
  tensor_wf t ->
  (forall b c, b < dimB (tshape t) -> c < dimC (tshape t) ->
     f b c (slice_at t b c) = Ok (F b c)) ->
  slice_loop t f
  = Ok (Tensor (tshape t) (imap (fun b img => imap (fun c _ => F b c) img) (tdata t))).
Proof.
  intros Hwf Hf. unfold slice_loop.
  rewrite (outer_loop_prefix t f F _ Hwf) by (intros; by apply Hf).
  f_equal. f_equal. apply replaced_all. by destruct Hwf.
Qed.

(** The first failing slice function ends the loop with its exception. *)
Lemma slice_loop_raise (t : tensor E) (f : nat -> nat -> grid E -> result (grid E))
    (F : nat -> nat -> grid E) (b0 c0 : nat) (e : exn) :
  tensor_wf t ->
  b0 < dimB (tshape t) -> c0 < dimC (tshape t) ->
  (forall b c, c < dimC (tshape t) -> b < b0 \/ (b = b0 /\ c < c0) ->
     f b c (slice_at t b c) = Ok (F b c)) ->
  f b0 c0 (slice_at t b0 c0) = Raise e ->
  slice_loop t f = Raise e.
Proof.
  intros Hwf Hb0 Hc0 Hf He. unfold slice_loop.
  apply (for_range_raise_from _ (S b0)); [|lia].
  rewrite for_range_S, (outer_loop_prefix t f F b0 Hwf)
    by (intros; apply Hf; lia).
  cbn [rbind].
  apply (for_range_raise_from _ (S c0)); [|lia].
  rewrite for_range_S, inner_loop_prefix by (intros; apply Hf; lia).
  cbn [rbind]. rewrite slice_at_replaced.
  replace (slice_at (Tensor (tshape t) (tdata t)) b0 c0) with (slice_at t b0 c0)
    by reflexivity.
  rewrite He. reflexivity.
Qed.

Lemma slice_at_imap (sh : shape) (data : list (list (grid E)))
    (F : nat -> nat -> grid E) (b c : nat) (g : grid E) :
  data !! b ≫= (fun img => img !! c) = Some g ->
  slice_at (Tensor sh (imap (fun b img => imap (fun c _ => F b c) img) data)) b c
  = F b c.
Proof.
  intros Hg. unfold slice_at. cbn [tdata]. rewrite list_lookup_imap.
  destruct (data !! b) as [img|]; [|discriminate]. cbn [mbind option_bind] in *.
  osimpl. rewrite list_lookup_imap. cbn [mbind option_bind] in Hg.
  destruct (img !! c); [reflexivity|discriminate].
Qed.

Lemma wf_slice (t : tensor E) (b c : nat) :
  tensor_wf t -> b < dimB (tshape t) -> c < dimC (tshape t) ->
  exists g, tdata t !! b ≫= (fun img => img !! c) = Some g /\
            slice_at t b c = g /\
            grid_wf (dimH (tshape t)) (dimW (tshape t)) g.
Proof.
  intros [HB Himg] Hb Hc.
  destruct (tdata t !! b) as [img|] eqn:Hbl.
  2: { apply lookup_ge_None in Hbl. lia. }
  rewrite Forall_forall in Himg.
  destruct (Himg img) as [HC Hg]; [by eapply list_elem_of_lookup_2|].
  destruct (img !! c) as [g|] eqn:Hcl.
  2: { apply lookup_ge_None in Hcl. lia. }
  exists g. unfold slice_at. rewrite Hbl. osimpl. rewrite Hcl. osimpl.
  repeat split; try reflexivity; rewrite Forall_forall in Hg;
    apply Hg; by eapply list_elem_of_lookup_2.
Qed.

End Loops.

(** ** Grids *)

Section GridFacts.
Context {E : Type}.
Local Open Scope nat_scope.

Lemma grid_wf_row (h w : nat) (g : grid E) (y : nat) (r : list E) :
  grid_wf h w g -> g !! y = Some r -> y < h /\ length r = w.
Proof.
  intros [Hh Hw] Hy. split.
  - rewrite <- Hh. by eapply lookup_lt_Some.
  - rewrite Forall_lookup in Hw. by eapply Hw.
Qed.

Lemma grid_wf_cell (h w : nat) (g : grid E) (y x : nat) :
  grid_wf h w g -> y < h -> x < w -> is_Some (cell g y x).
Proof.
  intros Hwf Hy Hx. unfold cell.
  destruct (g !! y) as [r|] eqn:Hr.
  - osimpl. destruct (grid_wf_row _ _ _ _ _ Hwf Hr) as [_ Hl].
    apply lookup_lt_is_Some. lia.
  - apply lookup_ge_None in Hr. destruct Hwf as [Hh _]. lia.
Qed.

Lemma cell_None_row (h w : nat) (g : grid E) (y x : nat) :
  grid_wf h w g -> h <= y \/ w <= x -> cell g y x = None.
Proof.
  intros Hwf Hout. unfold cell.
  destruct (g !! y) as [r|] eqn:Hr; [|reflexivity]. osimpl.
  destruct (grid_wf_row _ _ _ _ _ Hwf Hr) as [Hy Hl].
  apply lookup_ge_None. lia.
Qed.

(** Two grids of one height with the same cells are equal. *)
Lemma grid_eq (g1 g2 : grid E) :
  length g1 = length g2 ->
  (forall y r1 r2, g1 !! y = Some r1 -> g2 !! y = Some r2 -> length r1 = length r2) ->
  (forall y x, cell g1 y x = cell g2 y x) ->
  g1 = g2.
Proof.
  intros Hlen Hrows Hcell. apply list_eq. intros y.
  destruct (g1 !! y) as [r1|] eqn:H1, (g2 !! y) as [r2|] eqn:H2.
  - f_equal. apply list_eq. intros x.
    specialize (Hcell y x). unfold cell in Hcell. by rewrite H1, H2 in Hcell.
  - apply lookup_lt_Some in H1. apply lookup_ge_None in H2. lia.
  - apply lookup_ge_None in H1. apply lookup_lt_Some in H2. lia.
  - reflexivity.
Qed.

Lemma grid_wf_eq (h w : nat) (g1 g2 : grid E) :
  grid_wf h w g1 -> grid_wf h w g2 ->
  (forall y x, y < h -> x < w -> cell g1 y x = cell g2 y x) ->
  g1 = g2.
Proof.
  intros H1 H2 Hcell. apply grid_eq.
  - destruct H1 as [-> _], H2 as [-> _]. reflexivity.
  - intros y r1 r2 Hr1 Hr2.
    destruct (grid_wf_row _ _ _ _ _ H1 Hr1) as [_ ->].
    by destruct (grid_wf_row _ _ _ _ _ H2 Hr2) as [_ ->].
  - intros y x. destruct (decide (y < h /\ x < w)) as [[Hy Hx]|Hout].
    + by apply Hcell.
    + rewrite (cell_None_row h w g1), (cell_None_row h w g2) by (done || lia).
      reflexivity.
Qed.

(** *** Slices *)

Lemma cell_crop (h w : nat) (g : grid E) (y x : nat) :
  cell (crop h w g) y x = if (y <? h) && (x <? w) then cell g y x else None.
Proof.
  unfold cell, crop. rewrite list_lookup_fmap, lookup_take.
  case_decide as Hy.
  - destruct (g !! y) as [r|]; osimpl.
    + rewrite lookup_take. case_decide; case_nat_tests.
    + case_nat_tests.
  - osimpl. case_nat_tests.
Qed.

Lemma crop_wf (H W h w : nat) (g : grid E) :
  grid_wf H W g -> h <= H -> w <= W -> grid_wf h w (crop h w g).
Proof.
  intros [HH HW] Hh Hw. unfold crop. split.
  - rewrite length_fmap, length_take. lia.
  - apply Forall_lookup. intros i r Hr.
    rewrite list_lookup_fmap, lookup_take in Hr. case_decide; [|discriminate].
    destruct (g !! i) as [r0|] eqn:Hg; [|discriminate]. injection Hr as <-.
    rewrite Forall_lookup in HW. rewrite length_take, (HW i r0 Hg). lia.
Qed.

Lemma zeros_like_wf (h w : nat) (zero : E) (g : grid E) :
  grid_wf h w g -> grid_wf h w (zeros_like zero g).
Proof.
  intros [Hh Hw]. unfold zeros_like. split.
  - by rewrite length_fmap.
  - apply Forall_lookup. intros i r Hr. rewrite list_lookup_fmap in Hr.
    destruct (g !! i) as [r0|] eqn:Hg; [|discriminate]. injection Hr as <-.
    rewrite Forall_lookup in Hw. by rewrite length_fmap, (Hw i r0 Hg).
Qed.

Lemma cell_sub_block (g : grid E) (y0 x0 s dy dx : nat) :
  cell (sub_block g y0 x0 s) dy dx
  = if (dy <? s) && (dx <? s) then cell g (y0 + dy) (x0 + dx) else None.
Proof.
  unfold cell, sub_block. rewrite list_lookup_fmap, lookup_take, lookup_drop.
  case_decide as Hy.
  - destruct (g !! (y0 + dy)) as [r|]; osimpl.
    + rewrite lookup_take, lookup_drop. case_decide; case_nat_tests.
    + case_nat_tests.
  - osimpl. case_nat_tests.
Qed.

Lemma sub_block_wf (h w : nat) (g : grid E) (y0 x0 s : nat) :
  grid_wf h w g -> y0 + s <= h -> x0 + s <= w ->
  grid_wf s s (sub_block g y0 x0 s).
Proof.
  intros [Hh Hw] Hy Hx. unfold sub_block. split.
  - rewrite length_fmap, length_take, length_drop. lia.
  - apply Forall_lookup. intros i r Hr.
    rewrite list_lookup_fmap, lookup_take, lookup_drop in Hr.
    case_decide; [|discriminate].
    destruct (g !! (y0 + i)) as [r0|] eqn:Hg; [|discriminate]. injection Hr as <-.
    rewrite Forall_lookup in Hw.
    rewrite length_take, length_drop, (Hw _ r0 Hg). lia.
Qed.

(** *** Slice assignment *)

Lemma assign_block_wf (h w : nat) (g : grid E) (y0 x0 : nat) (blk : grid E) :
  grid_wf h w g -> grid_wf h w (assign_block g y0 x0 blk).
Proof.
  intros [Hh Hw]. unfold assign_block. split.
  - by rewrite length_imap.
  - apply Forall_lookup. intros i r Hr. rewrite list_lookup_imap in Hr.
    destruct (g !! i) as [r0|] eqn:Hg; [|discriminate]. cbn in Hr.
    rewrite Forall_lookup in Hw. specialize (Hw i r0 Hg).
    destruct (y0 <=? i); [|by injection Hr as <-].
    destruct (blk !! (i - y0)); injection Hr as <-; [|done].
    unfold assign_row. by rewrite length_imap.
Qed.

Lemma cell_assign_block (h w s1 s2 : nat) (g : grid E) (y0 x0 : nat) (blk : grid E)
    (y x : nat) :
  grid_wf h w g -> grid_wf s1 s2 blk -> y < h -> x < w ->
  cell (assign_block g y0 x0 blk) y x
  = if (y0 <=? y) && (y <? y0 + s1) && (x0 <=? x) && (x <? x0 + s2)
    then cell blk (y - y0) (x - x0)
    else cell g y x.
Proof.
  intros Hg Hb Hy Hx.
  destruct (g !! y) as [r|] eqn:Hr.
  2: { apply lookup_ge_None in Hr. destruct Hg as [Hh _]. lia. }
  destruct (grid_wf_row _ _ _ _ _ Hg Hr) as [_ Hlr].
  destruct (r !! x) as [e|] eqn:He.
  2: { apply lookup_ge_None in He. lia. }
  assert (Hgc : cell g y x = Some e) by (unfold cell; by rewrite Hr).
  rewrite Hgc. unfold cell at 1. unfold assign_block.
  rewrite list_lookup_imap, Hr. osimpl.
  destruct (Nat.leb_spec y0 y) as [Hy0|Hy0]; cbn [andb]; [|exact He].
  destruct (blk !! (y - y0)) as [src|] eqn:Hsrc.
  - destruct (grid_wf_row _ _ _ _ _ Hb Hsrc) as [Hs1 Hls].
    replace (y <? y0 + s1) with true by (symmetry; apply Nat.ltb_lt; lia).
    cbn [andb]. unfold assign_row. rewrite list_lookup_imap, He. osimpl.
    unfold cell. rewrite Hsrc. osimpl.
    destruct (Nat.leb_spec x0 x) as [Hx0|Hx0]; cbn [andb]; [|reflexivity].
    destruct (src !! (x - x0)) as [v|] eqn:Hv.
    + apply lookup_lt_Some in Hv as Hlt.
      replace (x <? x0 + s2) with true by (symmetry; apply Nat.ltb_lt; lia).
      reflexivity.
    + apply lookup_ge_None in Hv.
      replace (x <? x0 + s2) with false by (symmetry; apply Nat.ltb_ge; lia).
      reflexivity.
  - apply lookup_ge_None in Hsrc. destruct Hb as [Hbl _].
    replace (y <? y0 + s1) with false by (symmetry; apply Nat.ltb_ge; lia).
    cbn [andb]. exact He.
Qed.

End GridFacts.

(** ** Block coordinates *)

Section BlockArith.
Local Open Scope nat_scope.

Lemma divmod_pair_inj (m a r a' r' : nat) :
  r < m -> r' < m -> a * m + r = a' * m + r' -> a = a' /\ r = r'.
Proof. intros Hr Hr' Heq. assert (a = a') by nia. subst. lia. Qed.

Lemma band_unique (s a a' r : nat) :
  a' * s <= a * s + r -> a * s + r < a' * s + s -> r < s -> a = a'.
Proof. intros H1 H2 Hr. nia. Qed.

Lemma block_index_bounds (bh bw d : nat) :
  d < bh * bw -> d / bw < bh /\ d mod bw < bw.
Proof.
  intros Hd. assert (bw <> 0) by (intros ->; lia). split.
  - apply Nat.Div0.div_lt_upper_bound; lia.
  - by apply Nat.mod_upper_bound.
Qed.

Lemma block_index_inj (bw d d' : nat) :
  d / bw = d' / bw -> d mod bw = d' mod bw -> d = d'.
Proof.
  intros Hq Hr. rewrite (Nat.div_mod_eq d bw), (Nat.div_mod_eq d' bw). by rewrite Hq, Hr.
Qed.

Lemma block_index_make (bw q r : nat) :
  r < bw -> (q * bw + r) / bw = q /\ (q * bw + r) mod bw = r.
Proof.
  intros Hr. split.
  - symmetry. apply (Nat.div_unique _ _ _ r); lia.
  - symmetry. apply (Nat.mod_unique _ _ q); lia.
Qed.

End BlockArith.

(** ** The block copy loop *)

Section BlockLoop.
Context {P : Platform}.
Local Open Scope nat_scope.

Lemma move_blocks_spec (S bh bw : nat) (perm : list nat) (ch sc0 : grid elem) :
  0 < S ->
  grid_wf (bh * S) (bw * S) ch ->
  grid_wf (bh * S) (bw * S) sc0 ->
  NoDup perm ->
  (forall i d, perm !! i = Some d -> d < bh * bw) ->
  forall k, k <= length perm -> k <= bh * bw ->
  exists sc,
    for_range k (move_block S bw (bh * bw) perm ch) sc0 = Ok sc /\
    grid_wf (bh * S) (bw * S) sc /\
    forall idx d dy dx, idx < k -> perm !! idx = Some d -> dy < S -> dx < S ->
      cell sc (d / bw * S + dy) (d mod bw * S + dx)
      = cell ch (idx / bw * S + dy) (idx mod bw * S + dx).
Proof.
  intros HS Hch Hsc0 Hnd Hrange.
  induction k as [|k IH]; intros Hk Hkt.
  { exists sc0. split; [reflexivity|]. split; [exact Hsc0|]. intros; lia. }
  destruct IH as (sc & Hloop & Hsc & Hcells); [lia|lia|].
  destruct (perm !! k) as [d|] eqn:Hd.
  2: { apply lookup_ge_None in Hd. lia. }
  pose proof (Hrange k d Hd) as Hdt.
  destruct (block_index_bounds bh bw d Hdt) as [Hdq Hdr].
  destruct (block_index_bounds bh bw k ltac:(lia)) as [Hkq Hkr].
  assert (Hblk : grid_wf S S (sub_block ch (k / bw * S) (k mod bw * S) S)).
  { apply (sub_block_wf (bh * S) (bw * S)); [exact Hch|nia|nia]. }
  eexists. split; [|split].
  - rewrite for_range_S, Hloop. cbn [rbind]. unfold move_block. rewrite Hd.
    replace (d <? bh * bw) with true by (symmetry; apply Nat.ltb_lt; lia).
    reflexivity.
  - by apply assign_block_wf.
  - intros idx d0 dy dx Hidx Hd0 Hdy Hdx.
    pose proof (Hrange idx d0 Hd0) as Hd0t.
    destruct (block_index_bounds bh bw d0 Hd0t) as [Hq0 Hr0].
    rewrite (cell_assign_block (bh * S) (bw * S) S S); [|done|done|nia|nia].
    destruct (decide (idx = k)) as [->|Hne].
    + assert (d0 = d) by congruence. subst d0.
      replace ((d / bw * S <=? d / bw * S + dy) && (d / bw * S + dy <? d / bw * S + S)
               && (d mod bw * S <=? d mod bw * S + dx)
               && (d mod bw * S + dx <? d mod bw * S + S)) with true
        by (symmetry; rewrite !andb_true_iff, !Nat.leb_le, !Nat.ltb_lt; lia).
      rewrite cell_sub_block.
      replace (d / bw * S + dy - d / bw * S) with dy by lia.
      replace (d mod bw * S + dx - d mod bw * S) with dx by lia.
      replace ((dy <? S) && (dx <? S)) with true
        by (symmetry; rewrite andb_true_iff, !Nat.ltb_lt; lia).
      reflexivity.
    + destruct ((d / bw * S <=? d0 / bw * S + dy) && (d0 / bw * S + dy <? d / bw * S + S)
               && (d mod bw * S <=? d0 mod bw * S + dx)
               && (d0 mod bw * S + dx <? d mod bw * S + S)) eqn:Hin.
      * exfalso. rewrite !andb_true_iff, !Nat.leb_le, !Nat.ltb_lt in Hin.
        destruct Hin as (((H1 & H2) & H3) & H4).
        pose proof (band_unique S _ _ _ H1 H2 Hdy) as Hq.
        pose proof (band_unique S _ _ _ H3 H4 Hdx) as Hr.
        assert (d0 = d) by (by apply (block_index_inj bw)). subst d0.
        apply Hne. by apply (NoDup_lookup perm idx k d).
      * apply Hcells; [lia|done..].
Qed.

Lemma crop_bounds (n s : nat) : n / s * s <= n.
Proof. rewrite Nat.mul_comm. apply Nat.Div0.mul_div_le. Qed.

Lemma shuffle_blocks_slice_spec (S H W : nat) (perm : list nat) (g : grid elem) :
  0 < S -> grid_wf H W g ->
  NoDup perm -> length perm = H / S * (W / S) ->
  (forall i d, perm !! i = Some d -> d < H / S * (W / S)) ->
  exists out,
    shuffle_blocks_slice S (W / S) (H / S * (W / S)) (H / S * S) (W / S * S) perm g g
    = Ok out /\
    grid_wf H W out /\
    (forall idx d dy dx, perm !! idx = Some d -> dy < S -> dx < S ->
       cell out (d / (W / S) * S + dy) (d mod (W / S) * S + dx)
       = cell g (idx / (W / S) * S + dy) (idx mod (W / S) * S + dx)) /\
    (forall y x, H / S * S <= y \/ W / S * S <= x -> cell out y x = cell g y x).
Proof.
  intros HS Hg Hnd Hlen Hrange.
  set (bh := H / S) in *. set (bw := W / S) in *.
  pose proof (crop_bounds H S) as HbH. pose proof (crop_bounds W S) as HbW.
  fold bh in HbH. fold bw in HbW.
  assert (Hch : grid_wf (bh * S) (bw * S) (crop (bh * S) (bw * S) g))
    by (by apply (crop_wf H W)).
  destruct (move_blocks_spec S bh bw perm _ _ HS Hch
              (zeros_like_wf _ _ ezero _ Hch) Hnd Hrange (length perm))
    as (sc & Hloop & Hsc & Hcells); [lia|lia|].
  exists (assign_block g 0 0 sc). split; [|split; [|split]].
  - unfold shuffle_blocks_slice. rewrite <- Hlen at 1. rewrite Hlen in Hloop.
    rewrite Hlen. rewrite Hloop. reflexivity.
  - by apply assign_block_wf.
  - intros idx d dy dx Hd Hdy Hdx.
    assert (Hidx : idx < length perm) by (by eapply lookup_lt_Some).
    destruct (block_index_bounds bh bw d (Hrange _ _ Hd)) as [Hq Hr].
    destruct (block_index_bounds bh bw idx ltac:(lia)) as [Hq' Hr'].
    rewrite (cell_assign_block H W (bh * S) (bw * S)); [|done|done|nia|nia].
    replace ((0 <=? d / bw * S + dy) && (d / bw * S + dy <? 0 + bh * S)
             && (0 <=? d mod bw * S + dx) && (d mod bw * S + dx <? 0 + bw * S))
      with true
      by (symmetry; rewrite !andb_true_iff, !Nat.leb_le, !Nat.ltb_lt; nia).
    rewrite !Nat.sub_0_r, (Hcells idx d dy dx) by done.
    rewrite cell_crop.
    replace ((idx / bw * S + dy <? bh * S) && (idx mod bw * S + dx <? bw * S))
      with true
      by (symmetry; rewrite !andb_true_iff, !Nat.ltb_lt; nia).
    reflexivity.
  - intros y x Hout.
    destruct (decide (y < H /\ x < W)) as [[Hy Hx]|Hno].
    + rewrite (cell_assign_block H W (bh * S) (bw * S)) by done.
      replace ((0 <=? y) && (y <? 0 + bh * S) && (0 <=? x) && (x <? 0 + bw * S))
        with false; [reflexivity|].
      symmetry. apply not_true_is_false.
      rewrite !andb_true_iff, !Nat.leb_le, !Nat.ltb_lt. lia.
    + rewrite (cell_None_row H W (assign_block g 0 0 sc)),
        (cell_None_row H W g); first [done | lia | by apply assign_block_wf].
Qed.

Lemma RandomState_in_range (s : Z) :
  (0 <= s < 2 ^ 32)%Z -> RandomState s = Ok (mt19937_seed s).
Proof.
  intros Hs. unfold RandomState.
  replace (s <? 0)%Z with false by (symmetry; apply Z.ltb_ge; lia).
  replace (4294967295 <? s)%Z with false by (symmetry; apply Z.ltb_ge; lia).
  reflexivity.
Qed.

Lemma imap_slices_wf (t : tensor elem) (F : nat -> nat -> grid elem) :
  tensor_wf t ->
  (forall b c, b < dimB (tshape t) -> c < dimC (tshape t) ->
     grid_wf (dimH (tshape t)) (dimW (tshape t)) (F b c)) ->
  tensor_wf (Tensor (tshape t) (imap (fun b img => imap (fun c _ => F b c) img) (tdata t))).
Proof.
  intros [HB Himg] HF. unfold tensor_wf. cbn [tshape tdata].
  split; [by rewrite length_imap|].
  apply Forall_lookup. intros b img' Hb. rewrite list_lookup_imap in Hb.
  destruct (tdata t !! b) as [img|] eqn:Hbl; [|discriminate]. injection Hb as <-.
  rewrite Forall_lookup in Himg. destruct (Himg b img Hbl) as [HC _].
  apply lookup_lt_Some in Hbl.
  split; [by rewrite length_imap|].
  apply Forall_lookup. intros c g' Hc. rewrite list_lookup_imap in Hc.
  destruct (img !! c) as [g|] eqn:Hcl; [|discriminate]. injection Hc as <-.
  apply lookup_lt_Some in Hcl. apply HF; lia.
Qed.

Lemma shuffle_blocks_ok (latent : tensor elem) (identity : Identity) (block_size : Z) :
  tensor_wf latent ->
  (0 <= seed identity < 2 ^ 32)%Z ->
  (1 <= block_size)%Z ->
  Z.to_nat block_size <= dimH (tshape latent) ->
  Z.to_nat block_size <= dimW (tshape latent) ->
  let S := Z.to_nat block_size in
  let bh := dimH (tshape latent) / S in
  let bw := dimW (tshape latent) / S in
  let perm := permutation (mt19937_seed (seed identity)) (bh * bw) in
  exists shuffled,
    _shuffle_blocks latent identity block_size = Ok shuffled /\
    tshape shuffled = tshape latent /\
    tensor_wf shuffled /\
    forall b c, b < dimB (tshape latent) -> c < dimC (tshape latent) ->
      shuffle_blocks_slice S bw (bh * bw) (bh * S) (bw * S) perm
        (slice_at latent b c) (slice_at latent b c)
      = Ok (slice_at shuffled b c) /\
      grid_wf (dimH (tshape latent)) (dimW (tshape latent)) (slice_at shuffled b c).
Proof.
  intros Hwf Hseed Hbs HSH HSW S bh bw perm.
  assert (HS : 0 < S) by (unfold S; lia).
  set (f := fun b c => shuffle_blocks_slice S bw (bh * bw) (bh * S) (bw * S) perm
                         (slice_at latent b c)).
  set (F := fun b c => slice_result (f b c (slice_at latent b c))).
  assert (Hslice : forall b c, b < dimB (tshape latent) -> c < dimC (tshape latent) ->
            f b c (slice_at latent b c) = Ok (F b c) /\
            grid_wf (dimH (tshape latent)) (dimW (tshape latent)) (F b c)).
  { intros b c Hb Hc.
    destruct (wf_slice latent b c Hwf Hb Hc) as (g & _ & Hg & Hgwf).
    destruct (shuffle_blocks_slice_spec S _ _ perm g HS Hgwf
                (permutation_NoDup _ _) (permutation_length _ _))
      as (out & Hout & Houtwf & _).
    { intros i d Hd. apply (permutation_elem_of (mt19937_seed (seed identity))).
      by eapply list_elem_of_lookup_2. }
    unfold F, f. rewrite Hg. fold bh bw. fold bh bw in Hout. rewrite Hout.
    by split. }
  exists (Tensor (tshape latent)
            (imap (fun b img => imap (fun c _ => F b c) img) (tdata latent))).
  split; [|split; [reflexivity|split]].
  - rewrite <- (slice_loop_ok latent f F Hwf)
      by (intros b c Hb Hc; by apply Hslice).
    unfold _shuffle_blocks, slice_loop.
    destruct (tshape latent) as [B C Hh Ww] eqn:Hsh. cbn [dimB dimC dimH dimW] in *.
    replace (block_size =? 0)%Z with false by (symmetry; apply Z.eqb_neq; lia).
    replace (block_size <? 0)%Z with false by (symmetry; apply Z.ltb_ge; lia).
    fold S. fold bh bw.
    assert (0 < bh) by (apply Nat.div_str_pos; lia).
    assert (0 < bw) by (apply Nat.div_str_pos; lia).
    replace (bh =? 0) with false by (symmetry; apply Nat.eqb_neq; lia).
    replace (bw =? 0) with false by (symmetry; apply Nat.eqb_neq; lia).
    cbn [orb]. rewrite RandomState_in_range by done. reflexivity.
  - apply imap_slices_wf; [done|]. intros b c Hb Hc. by apply Hslice.
  - intros b c Hb Hc.
    destruct (wf_slice latent b c Hwf Hb Hc) as (g & Hg & _ & _).
    rewrite (slice_at_imap _ _ _ b c g Hg). by apply Hslice.
Qed.

End BlockLoop.

(** ** Block mode *)

Section BlockMode.
Context {P : Platform}.
Local Open Scope nat_scope.

(** C6, as amended. In block mode with block size S, for a tensor with
    H >= S and W >= S: one permutation of the (H//S)*(W//S) block indices is
    drawn from RandomState(seed) and used for every (batch, channel) slice;
    input block [i] moves to output block [permutation[i]] (output block
    [permutation[i]] equals input block [i]); cells outside the top-left
    (H//S)*S by (W//S)*S region keep their values. *)
Theorem shuffle_blocks_scatter (latent : tensor elem) (identity : Identity)
    (block_size : Z) :
  tensor_wf latent ->
  (0 <= seed identity < 2 ^ 32)%Z ->
  (1 <= block_size)%Z ->
  Z.to_nat block_size <= dimH (tshape latent) ->
  Z.to_nat block_size <= dimW (tshape latent) ->
  let S := Z.to_nat block_size in
  let bh := dimH (tshape latent) / S in
  let bw := dimW (tshape latent) / S in
  exists rng shuffled,
    RandomState (seed identity) = Ok rng /\
    _shuffle_blocks latent identity block_size = Ok shuffled /\
    tshape shuffled = tshape latent /\
    let block_perm := permutation rng (bh * bw) in
    length block_perm = bh * bw /\
    forall b c, b < dimB (tshape latent) -> c < dimC (tshape latent) ->
      (forall i d, block_perm !! i = Some d ->
         block_at S bw (slice_at shuffled b c) d
         = block_at S bw (slice_at latent b c) i) /\
      (forall y x, bh * S <= y \/ bw * S <= x ->
         tcell shuffled b c y x = tcell latent b c y x).
Proof.
  intros Hwf Hseed Hbs HSH HSW S bh bw.
  destruct (shuffle_blocks_ok latent identity block_size Hwf Hseed Hbs HSH HSW)
    as (shuffled & Hrun & Hshape & _ & Hslices).
  fold S bh bw in Hslices.
  exists (mt19937_seed (seed identity)), shuffled.
  split; [by apply RandomState_in_range|]. split; [exact Hrun|].
  split; [exact Hshape|]. cbv zeta. split; [apply permutation_length|].
  intros b c Hb Hc. destruct (Hslices b c Hb Hc) as [Hout Houtwf].
  destruct (wf_slice latent b c Hwf Hb Hc) as (g & _ & Hg & Hgwf).
  rewrite Hg in *.
  assert (HS : 0 < S) by (unfold S; lia).
  set (perm := permutation (mt19937_seed (seed identity)) (bh * bw)) in *.
  assert (Hrange : forall i d, perm !! i = Some d -> d < bh * bw).
  { intros i d Hd. apply (permutation_elem_of (mt19937_seed (seed identity))).
    by eapply list_elem_of_lookup_2. }
  destruct (shuffle_blocks_slice_spec S _ _ perm g HS Hgwf
              (permutation_NoDup _ _) (permutation_length _ _) Hrange)
    as (out & Hout' & _ & Hcells & Hrest).
  fold bh bw in Hout', Hcells, Hrest.
  rewrite Hout in Hout'. injection Hout' as <-.
  pose proof (crop_bounds (dimH (tshape latent)) S) as HbH.
  pose proof (crop_bounds (dimW (tshape latent)) S) as HbW.
  fold bh in HbH. fold bw in HbW.
  split.
  - intros i d Hd. unfold block_at.
    assert (Hi : i < bh * bw).
    { apply lookup_lt_Some in Hd. unfold perm in Hd.
      by rewrite permutation_length in Hd. }
    destruct (block_index_bounds bh bw d (Hrange _ _ Hd)) as [Hq Hr].
    destruct (block_index_bounds bh bw i Hi) as [Hq' Hr'].
    apply (grid_wf_eq S S).
    + eapply sub_block_wf; [exact Houtwf|nia|nia].
    + eapply sub_block_wf; [exact Hgwf|nia|nia].
    + intros dy dx Hdy Hdx. rewrite !cell_sub_block.
      replace ((dy <? S) && (dx <? S)) with true
        by (symmetry; rewrite andb_true_iff, !Nat.ltb_lt; lia).
      by apply Hcells.
  - intros y x Hyx. unfold tcell. rewrite Hg. by apply Hrest.
Qed.

End BlockMode.

(** C6, the counterexample. For the key "alice" the six 8-by-8 blocks of a
    16-by-24 slice are permuted by [0, 1, 3, 5, 4, 2]: output block 2 is
    input block 5 (the block that the permutation sends to 2), and not
    input block 3 = permutation[2]. *)
Lemma shuffle_blocks_is_not_a_gather :
  let identity := _derive_crypto_identity (py "alice") (Shape 1 1 16 24) 1%float in
  let shuffled := i <-- identity ;; _shuffle_blocks (H := reference_platform) alice_latent i 8%Z in
  (i <-- identity ;; rng <-- RandomState (H := reference_platform) (seed i) ;;
   Ok (permutation rng 6)) = Ok [0; 1; 3; 5; 4; 2]%nat /\
  (out <-- shuffled ;; Ok (block_at 8 3 (slice_at out 0 0) 2))
  = Ok (block_at 8 3 (slice_at alice_latent 0 0) 5) /\
  (out <-- shuffled ;; Ok (block_at 8 3 (slice_at out 0 0) 2))
  <> Ok (block_at 8 3 (slice_at alice_latent 0 0) 3).
Proof.
  cbv zeta. split; [vm_compute; reflexivity|]. split; [vm_compute; reflexivity|].
  intros Heq.
  apply (f_equal (fun r => match r with
                           | Ok g => match cell g 0 0 with
                                     | Some v => PrimFloat.eqb v 192
                                     | None => false
                                     end
                           | Raise _ => false
                           end)) in Heq.
  vm_compute in Heq. discriminate Heq.
Qed.

(** ** Rearrangements of the cells of a grid *)

Section Multiset.
Context {E : Type}.
Local Open Scope nat_scope.

Lemma length_concat_wf (h w : nat) (g : grid E) :
  grid_wf h w g -> length (concat g) = h * w.
Proof.
  revert h. induction g as [|r g IH]; intros h [Hh Hw]; cbn in *; [lia|].
  apply Forall_cons in Hw as [Hr Hw].
  rewrite length_app, (IH (length g)) by done. lia.
Qed.

Lemma concat_lookup_wf (h w : nat) (g : grid E) (y x : nat) :
  grid_wf h w g -> x < w -> concat g !! (y * w + x) = cell g y x.
Proof.
  revert h y. induction g as [|r g IH]; intros h y [Hh Hw] Hx; [reflexivity|].
  apply Forall_cons in Hw as [Hr Hw]. cbn [concat].
  destruct y as [|y].
  - cbn. rewrite lookup_app_l by lia. reflexivity.
  - rewrite lookup_app_r by lia.
    replace (S y * w + x - length r) with (y * w + x) by lia.
    by apply (IH (length g)).
Qed.

Lemma lookup_nth_lt (l : list E) (i : nat) (d : E) :
  i < length l -> l !! i = Some (nth i l d).
Proof. intros Hi. destruct (nth_lookup_or_length l i d); [done|lia]. Qed.

(** Two lists are permutations of each other when an injective index map
    carries the cells of one to the cells of the other. *)
Lemma Permutation_by_index (l1 l2 : list E) (n : nat) (phi : nat -> nat) :
  length l1 = n -> length l2 = n ->
  (forall k, k < n -> phi k < n) ->
  (forall k1 k2, k1 < n -> k2 < n -> phi k1 = phi k2 -> k1 = k2) ->
  (forall k, k < n -> l1 !! k = l2 !! phi k) ->
  l1 ≡ₚ l2.
Proof.
  intros H1 H2 Hrange Hinj Hcell.
  assert (Hd0 : n = 0 \/ exists d0 : E, True).
  { destruct l2 as [|d0 ?]; [left; by rewrite <- H2|right; by exists d0]. }
  destruct Hd0 as [->|[d0 _]].
  { apply nil_length_inv in H1, H2. by subst. }
  assert (Hl2 : l2 = (fun j => nth j l2 d0) <$> seq 0 n).
  { apply list_eq. intros j. rewrite list_lookup_fmap.
    destruct (decide (j < n)) as [Hj|Hj].
    - rewrite lookup_seq_lt by done. cbn. apply lookup_nth_lt. lia.
    - rewrite lookup_seq_ge by lia. cbn. apply lookup_ge_None. lia. }
  assert (Hl1 : l1 = (fun j => nth j l2 d0) <$> (phi <$> seq 0 n)).
  { apply list_eq. intros k. rewrite !list_lookup_fmap.
    destruct (decide (k < n)) as [Hk|Hk].
    - rewrite lookup_seq_lt by done. cbn. rewrite Hcell by done.
      apply lookup_nth_lt. specialize (Hrange k Hk). lia.
    - rewrite lookup_seq_ge by lia. cbn. apply lookup_ge_None. lia. }
  rewrite Hl1. transitivity ((fun j => nth j l2 d0) <$> seq 0 n); [|by rewrite <- Hl2].
  apply fmap_Permutation.
  apply submseteq_length_Permutation.
  - apply NoDup_submseteq.
    + apply NoDup_fmap_2_strong; [|apply NoDup_seq].
      intros k1 k2 Hk1%elem_of_seq Hk2%elem_of_seq. apply Hinj; lia.
    + intros j (k & -> & Hk%elem_of_seq)%list_elem_of_fmap.
      apply elem_of_seq. specialize (Hrange k). lia.
  - by rewrite length_fmap.
Qed.

Lemma flat_index_bound (h w a b : nat) : a < h -> b < w -> a * w + b < h * w.
Proof. intros Ha Hb. nia. Qed.

Lemma index_of_lookup (d : nat) (l : list nat) :
  d ∈ l -> l !! index_of d l = Some d.
Proof.
  induction l as [|v l IH]; intros Hin; [by apply elem_of_nil in Hin|].
  cbn. destruct (Nat.eqb_spec v d) as [->|Hne]; [reflexivity|].
  cbn. apply IH. apply elem_of_cons in Hin as [?|?]; [congruence|done].
Qed.

Lemma src_index_spec (s bh bw : nat) (perm : list nat) (k : nat) :
  0 < s -> perm ≡ₚ seq 0 (bh * bw) -> k < bh * s * (bw * s) ->
  exists by_ dy bx dx idx,
    by_ < bh /\ dy < s /\ bx < bw /\ dx < s /\
    k = (by_ * s + dy) * (bw * s) + (bx * s + dx) /\
    perm !! idx = Some (by_ * bw + bx) /\
    idx / bw < bh /\ idx mod bw < bw /\
    src_index s bw perm k
    = (idx / bw * s + dy) * (bw * s) + (idx mod bw * s + dx).
Proof.
  intros Hs Hperm Hk.
  assert (Hw : bw * s <> 0) by (intros Hz; rewrite Hz in Hk; lia).
  assert (Hbw : bw <> 0) by (intros ->; lia).
  set (y := k / (bw * s)). set (x := k mod (bw * s)).
  pose proof (Nat.div_mod_eq k (bw * s)) as Hkyx. fold y x in Hkyx.
  assert (Hx : x < bw * s) by (by apply Nat.mod_upper_bound).
  assert (Hy : y < bh * s) by (apply Nat.Div0.div_lt_upper_bound; lia).
  pose proof (Nat.div_mod_eq y s) as Hyd. pose proof (Nat.div_mod_eq x s) as Hxd.
  assert (Hdy : y mod s < s) by (apply Nat.mod_upper_bound; lia).
  assert (Hdx : x mod s < s) by (apply Nat.mod_upper_bound; lia).
  assert (Hby : y / s < bh) by (apply Nat.Div0.div_lt_upper_bound; lia).
  assert (Hbx : x / s < bw) by (apply Nat.Div0.div_lt_upper_bound; lia).
  set (d := y / s * bw + x / s).
  assert (Hd : d < bh * bw) by (unfold d; nia).
  assert (Hin : d ∈ perm) by (rewrite Hperm, elem_of_seq; lia).
  pose proof (index_of_lookup d perm Hin) as Hidx.
  assert (Hil : index_of d perm < bh * bw).
  { apply lookup_lt_Some in Hidx.
    by rewrite (Permutation_length Hperm), length_seq in Hidx. }
  destruct (block_index_bounds bh bw _ Hil) as [Hq Hr].
  exists (y / s), (y mod s), (x / s), (x mod s), (index_of d perm).
  repeat split; try done. nia.
Qed.

Lemma block_cells_Permutation (s bh bw : nat) (perm : list nat) (g out : grid E) :
  0 < s ->
  grid_wf (bh * s) (bw * s) g ->
  grid_wf (bh * s) (bw * s) out ->
  perm ≡ₚ seq 0 (bh * bw) ->
  (forall idx d dy dx, perm !! idx = Some d -> dy < s -> dx < s ->
     cell out (d / bw * s + dy) (d mod bw * s + dx)
     = cell g (idx / bw * s + dy) (idx mod bw * s + dx)) ->
  concat out ≡ₚ concat g.
Proof.
  intros Hs Hg Hout Hperm Hcells.
  apply (Permutation_by_index _ _ (bh * s * (bw * s)) (src_index s bw perm)).
  - by apply length_concat_wf.
  - by apply length_concat_wf.
  - intros k Hk.
    destruct (src_index_spec s bh bw perm k Hs Hperm Hk)
      as (by_ & dy & bx & dx & idx & Hby & Hdy & Hbx & Hdx & _ & _ & Hq & Hr & ->).
    apply flat_index_bound; by apply flat_index_bound.
  - intros k1 k2 Hk1 Hk2 Heq.
    destruct (src_index_spec s bh bw perm k1 Hs Hperm Hk1)
      as (by1 & dy1 & bx1 & dx1 & i1 & Hby1 & Hdy1 & Hbx1 & Hdx1 & -> & Hp1 & Hq1 & Hr1 & E1).
    destruct (src_index_spec s bh bw perm k2 Hs Hperm Hk2)
      as (by2 & dy2 & bx2 & dx2 & i2 & Hby2 & Hdy2 & Hbx2 & Hdx2 & -> & Hp2 & Hq2 & Hr2 & E2).
    rewrite E1, E2 in Heq.
    apply divmod_pair_inj in Heq as [Hrow Hcol]; [|by apply flat_index_bound..].
    apply divmod_pair_inj in Hrow as [Hq Hdy]; [|lia|lia].
    apply divmod_pair_inj in Hcol as [Hr Hdx]; [|lia|lia].
    assert (i1 = i2) by (by apply (block_index_inj bw)). subst i2.
    rewrite Hp1 in Hp2. injection Hp2 as Hd.
    apply divmod_pair_inj in Hd as [-> ->]; [|lia|lia].
    by subst.
  - intros k Hk.
    destruct (src_index_spec s bh bw perm k Hs Hperm Hk)
      as (by_ & dy & bx & dx & idx & Hby & Hdy & Hbx & Hdx & -> & Hp & Hq & Hr & ->).
    rewrite (concat_lookup_wf (bh * s) (bw * s))
      by (done || by apply flat_index_bound).
    rewrite (concat_lookup_wf (bh * s) (bw * s))
      by (done || by apply flat_index_bound).
    destruct (block_index_make bw by_ bx Hbx) as [Hdq Hdr].
    rewrite <- (Hcells idx (by_ * bw + bx) dy dx Hp Hdy Hdx).
    by rewrite Hdq, Hdr.
Qed.

End Multiset.

Section BlockValues.
Context {P : Platform}.
Local Open Scope nat_scope.

(** C8. The generated permutation of N indices has no duplicates and holds
    exactly the indices below N; consequently, in block mode with a block
    size S that divides H and W, the shuffled tensor has the shape of the
    input and, per (batch, channel) slice, its elements are a rearrangement
    of the elements of the input slice. *)
Theorem block_shuffle_preserves_values (latent : tensor elem) (identity : Identity)
    (block_size : Z) :
  tensor_wf latent ->
  (0 <= seed identity < 2 ^ 32)%Z ->
  (1 <= block_size)%Z ->
  Z.to_nat block_size <= dimH (tshape latent) ->
  Z.to_nat block_size <= dimW (tshape latent) ->
  dimH (tshape latent) mod Z.to_nat block_size = 0 ->
  dimW (tshape latent) mod Z.to_nat block_size = 0 ->
  (forall (st : rng_state) (n : nat),
     NoDup (permutation st n) /\
     length (permutation st n) = n /\
     forall k, k ∈ permutation st n <-> k < n) /\
  exists shuffled,
    _shuffle_blocks latent identity block_size = Ok shuffled /\
    tshape shuffled = tshape latent /\
    tensor_wf shuffled /\
    forall b c, b < dimB (tshape latent) -> c < dimC (tshape latent) ->
      concat (slice_at shuffled b c) ≡ₚ concat (slice_at latent b c).
Proof.
  intros Hwf Hseed Hbs HSH HSW HdivH HdivW. split.
  { intros st n. split; [apply permutation_NoDup|].
    split; [apply permutation_length|apply permutation_elem_of]. }
  destruct (shuffle_blocks_ok latent identity block_size Hwf Hseed Hbs HSH HSW)
    as (shuffled & Hrun & Hshape & Hswf & Hslices).
  exists shuffled. split; [exact Hrun|]. split; [exact Hshape|]. split; [exact Hswf|].
  intros b c Hb Hc. destruct (Hslices b c Hb Hc) as [Hout Houtwf].
  destruct (wf_slice latent b c Hwf Hb Hc) as (g & _ & Hg & Hgwf).
  rewrite Hg in *.
  set (S := Z.to_nat block_size) in *.
  set (bh := dimH (tshape latent) / S) in *.
  set (bw := dimW (tshape latent) / S) in *.
  assert (HS : 0 < S) by (unfold S; lia).
  set (perm := permutation (mt19937_seed (seed identity)) (bh * bw)) in *.
  assert (Hrange : forall i d, perm !! i = Some d -> d < bh * bw).
  { intros i d Hd. apply (permutation_elem_of (mt19937_seed (seed identity))).
    by eapply list_elem_of_lookup_2. }
  destruct (shuffle_blocks_slice_spec S _ _ perm g HS Hgwf
              (permutation_NoDup _ _) (permutation_length _ _) Hrange)
    as (out & Hout' & _ & Hcells & _).
  fold bh bw in Hout', Hcells.
  rewrite Hout in Hout'. injection Hout' as <-.
  assert (HH : dimH (tshape latent) = bh * S).
  { unfold bh. rewrite Nat.mul_comm. apply Nat.Div0.div_exact. exact HdivH. }
  assert (HW : dimW (tshape latent) = bw * S).
  { unfold bw. rewrite Nat.mul_comm. apply Nat.Div0.div_exact. exact HdivW. }
  rewrite HH, HW in Hgwf, Houtwf.
  apply (block_cells_Permutation S bh bw perm); try done.
  apply permutation_Permutation.
Qed.

End BlockValues.

Lemma alice_latent_wf : tensor_wf alice_latent.
Proof. apply ramp_wf. Qed.

Lemma shuffle_blocks_scatter_witness :
  tensor_wf alice_latent /\
  (0 <= seed alice_identity < 2 ^ 32)%Z /\
  (1 <= 8)%Z /\
  (Z.to_nat 8 <= dimH (tshape alice_latent))%nat /\
  (Z.to_nat 8 <= dimW (tshape alice_latent))%nat /\
  exists shuffled,
    _shuffle_blocks (H := reference_platform) alice_latent alice_identity 8%Z
    = Ok shuffled /\
    tshape shuffled = tshape alice_latent.
Proof.
  assert (H1 : (0 <= seed alice_identity < 2 ^ 32)%Z) by (cbn; lia).
  assert (H2 : (1 <= 8)%Z) by lia.
  assert (H3 : (Z.to_nat 8 <= dimH (tshape alice_latent))%nat) by (cbn; lia).
  assert (H4 : (Z.to_nat 8 <= dimW (tshape alice_latent))%nat) by (cbn; lia).
  repeat (split; [first [exact alice_latent_wf | exact H1 | exact H2
                        | exact H3 | exact H4]|]).
  destruct (shuffle_blocks_scatter (P := reference_platform) alice_latent
              alice_identity 8%Z alice_latent_wf H1 H2 H3 H4)
    as (rng & shuffled & _ & Hrun & Hshape & _).
  exists shuffled. split; [exact Hrun|exact Hshape].
Defined.

Lemma block_shuffle_preserves_values_witness :
  tensor_wf alice_latent /\
  (0 <= seed alice_identity < 2 ^ 32)%Z /\
  (1 <= 8)%Z /\
  (Z.to_nat 8 <= dimH (tshape alice_latent))%nat /\
  (Z.to_nat 8 <= dimW (tshape alice_latent))%nat /\
  (dimH (tshape alice_latent) mod Z.to_nat 8 = 0)%nat /\
  (dimW (tshape alice_latent) mod Z.to_nat 8 = 0)%nat /\
  exists shuffled,
    _shuffle_blocks (H := reference_platform) alice_latent alice_identity 8%Z
    = Ok shuffled /\
    concat (slice_at shuffled 0 0) ≡ₚ concat (slice_at alice_latent 0 0).
Proof.
  assert (H1 : (0 <= seed alice_identity < 2 ^ 32)%Z) by (cbn; lia).
  assert (H2 : (1 <= 8)%Z) by lia.
  assert (H3 : (Z.to_nat 8 <= dimH (tshape alice_latent))%nat) by (cbn; lia).
  assert (H4 : (Z.to_nat 8 <= dimW (tshape alice_latent))%nat) by (cbn; lia).
  assert (H5 : (dimH (tshape alice_latent) mod Z.to_nat 8 = 0)%nat) by reflexivity.
  assert (H6 : (dimW (tshape alice_latent) mod Z.to_nat 8 = 0)%nat) by reflexivity.
  repeat (split; [first [exact alice_latent_wf | exact H1 | exact H2
                        | exact H3 | exact H4 | exact H5 | exact H6]|]).
  destruct (block_shuffle_preserves_values (P := reference_platform) alice_latent
              alice_identity 8%Z alice_latent_wf H1 H2 H3 H4 H5 H6)
    as (_ & shuffled & Hrun & _ & _ & Hperm).
  exists shuffled. split; [exact Hrun|].
  apply Hperm; cbn; lia.
Defined.

(** ** Pixel mode *)

Section PixelFacts.
Context {E : Type}.
Local Open Scope nat_scope.

Lemma index_select_spec (flat : list E) (perm : list nat) :
  (forall i j, perm !! i = Some j -> j < length flat) ->
  exists picked,
    index_select flat perm = Ok picked /\
    length picked = length perm /\
    forall i j, perm !! i = Some j -> picked !! i = flat !! j.
Proof.
  intros Hrange. unfold index_select.
  destruct (mapM (fun j => flat !! j) perm) as [picked|] eqn:Hm.
  - exists picked. split; [reflexivity|].
    apply mapM_Some_1 in Hm. split; [symmetry; by eapply Forall2_length|].
    intros i j Hj.
    destruct (picked !! i) as [v|] eqn:Hv.
    + symmetry. by apply (Forall2_lookup_lr _ _ _ i j v Hm).
    + apply lookup_ge_None in Hv. apply lookup_lt_Some in Hj.
      apply Forall2_length in Hm. lia.
  - exfalso. assert (His : is_Some (mapM (fun j => flat !! j) perm)).
    { apply mapM_is_Some_2, Forall_lookup. intros i j Hj. cbn.
      apply lookup_lt_is_Some. by eapply Hrange. }
    rewrite Hm in His. by destruct His.
Qed.

Lemma reshape_spec (h w : nat) (l : list E) :
  length l = h * w ->
  exists g, reshape h w l = Ok g /\ grid_wf h w g /\ concat g = l.
Proof.
  intros Hlen. unfold reshape.
  replace (length l =? h * w) with true by (symmetry; by apply Nat.eqb_eq).
  eexists. split; [reflexivity|].
  assert (Hwf : grid_wf h w ((fun y => take w (drop (y * w) l)) <$> seq 0 h)).
  { split; [by rewrite length_fmap, length_seq|].
    apply Forall_lookup. intros y r Hr. rewrite list_lookup_fmap in Hr.
    destruct (seq 0 h !! y) as [y'|] eqn:Hy; [|discriminate].
    apply lookup_seq in Hy as [-> Hy]. injection Hr as <-.
    rewrite length_take, length_drop. nia. }
  split; [exact Hwf|].
  apply (list_eq_same_length _ _ (h * w)); [done|by apply length_concat_wf|].
  intros k u v Hk Hu Hv.
  assert (Hw : w <> 0) by (intros ->; lia).
  pose proof (Nat.div_mod_eq k w) as Hkd.
  assert (Hx : k mod w < w) by (by apply Nat.mod_upper_bound).
  assert (Hy : k / w < h) by (apply Nat.Div0.div_lt_upper_bound; lia).
  replace k with (k / w * w + k mod w) in Hu by lia.
  rewrite (concat_lookup_wf h w) in Hu by done.
  unfold cell in Hu. rewrite list_lookup_fmap, lookup_seq_lt in Hu by done.
  cbn in Hu. rewrite lookup_take_lt, lookup_drop in Hu by done.
  replace (k / w * w + k mod w) with k in Hu by lia. congruence.
Qed.

End PixelFacts.

Section PixelMode.
Context {P : Platform}.
Local Open Scope nat_scope.

Lemma shuffle_pixels_slice_spec (Hh Ww : nat) (s : Z) (g : grid elem) :
  grid_wf Hh Ww g -> (0 <= s < 2 ^ 32)%Z ->
  exists out,
    shuffle_pixels_slice Hh Ww s g = Ok out /\
    grid_wf Hh Ww out /\
    forall i j, permutation (mt19937_seed s) (Hh * Ww) !! i = Some j ->
      concat out !! i = concat g !! j.
Proof.
  intros Hg Hs. unfold shuffle_pixels_slice.
  rewrite RandomState_in_range by done. cbn [rbind].
  rewrite (length_concat_wf Hh Ww) by done.
  set (perm := permutation (mt19937_seed s) (Hh * Ww)).
  destruct (index_select_spec (concat g) perm) as (picked & Hsel & Hlen & Hpick).
  { intros i j Hj. rewrite (length_concat_wf Hh Ww) by done.
    apply (permutation_elem_of (mt19937_seed s)). by eapply list_elem_of_lookup_2. }
  rewrite Hsel. cbn [rbind].
  destruct (reshape_spec Hh Ww picked) as (out & Hout & Hwf & Hcat).
  { unfold perm in Hlen. by rewrite permutation_length in Hlen. }
  exists out. split; [exact Hout|]. split; [exact Hwf|].
  intros i j Hj. rewrite Hcat. by apply Hpick.
Qed.

Lemma shuffle_pixels_slice_overflow (Hh Ww : nat) (s : Z) (g : grid elem) :
  (2 ^ 32 <= s)%Z -> shuffle_pixels_slice Hh Ww s g = Raise ValueError.
Proof.
  intros Hs. unfold shuffle_pixels_slice, RandomState.
  replace (4294967295 <? s)%Z with true by (symmetry; apply Z.ltb_lt; lia).
  by rewrite orb_true_r.
Qed.

Lemma shuffle_pixels_loop (latent : tensor elem) (identity : Identity) :
  _shuffle_pixels latent identity
  = slice_loop latent (fun b c _ =>
      shuffle_pixels_slice (dimH (tshape latent)) (dimW (tshape latent))
        (channel_seed identity (dimC (tshape latent)) b c) (slice_at latent b c)).
Proof.
  unfold _shuffle_pixels, slice_loop, channel_seed. by destruct (tshape latent).
Qed.

(** Pixel mode while every channel seed is a 32-bit integer: each slice is
    flattened, gathered through its own permutation and reshaped. *)
Lemma pixel_shuffle_gather (latent : tensor elem) (identity : Identity) :
  tensor_wf latent ->
  (0 <= seed identity)%Z ->
  (seed identity + Z.of_nat (dimB (tshape latent) * dimC (tshape latent)) <= 2 ^ 32)%Z ->
  exists shuffled,
    _shuffle_pixels latent identity = Ok shuffled /\
    tshape shuffled = tshape latent /\
    tensor_wf shuffled /\
    forall b c, b < dimB (tshape latent) -> c < dimC (tshape latent) ->
      exists rng,
        RandomState (channel_seed identity (dimC (tshape latent)) b c) = Ok rng /\
        grid_wf (dimH (tshape latent)) (dimW (tshape latent)) (slice_at shuffled b c) /\
        forall i j,
          permutation rng (dimH (tshape latent) * dimW (tshape latent)) !! i = Some j ->
          concat (slice_at shuffled b c) !! i = concat (slice_at latent b c) !! j.
Proof.
  intros Hwf Hs0 Hs1.
  set (f := fun (b c : nat) (_ : grid elem) =>
      shuffle_pixels_slice (dimH (tshape latent)) (dimW (tshape latent))
        (channel_seed identity (dimC (tshape latent)) b c) (slice_at latent b c)).
  set (F := fun b c => slice_result (f b c (slice_at latent b c))).
  assert (Hrange : forall b c, b < dimB (tshape latent) -> c < dimC (tshape latent) ->
            (0 <= channel_seed identity (dimC (tshape latent)) b c < 2 ^ 32)%Z).
  { intros b c Hb Hc. unfold channel_seed. nia. }
  assert (Hslice : forall b c, b < dimB (tshape latent) -> c < dimC (tshape latent) ->
            f b c (slice_at latent b c) = Ok (F b c) /\
            grid_wf (dimH (tshape latent)) (dimW (tshape latent)) (F b c) /\
            forall i j,
              permutation (mt19937_seed (channel_seed identity (dimC (tshape latent)) b c))
                (dimH (tshape latent) * dimW (tshape latent)) !! i = Some j ->
              concat (F b c) !! i = concat (slice_at latent b c) !! j).
  { intros b c Hb Hc.
    destruct (wf_slice latent b c Hwf Hb Hc) as (g & _ & Hg & Hgwf).
    destruct (shuffle_pixels_slice_spec _ _ _ g Hgwf (Hrange b c Hb Hc))
      as (out & Hout & Houtwf & Hcells).
    unfold F, f. rewrite Hg, Hout. cbn [slice_result].
    split; [reflexivity|]. split; [exact Houtwf|exact Hcells]. }
  exists (Tensor (tshape latent)
            (imap (fun b img => imap (fun c _ => F b c) img) (tdata latent))).
  split; [|split; [reflexivity|split]].
  - rewrite shuffle_pixels_loop. fold f.
    apply slice_loop_ok; [done|]. intros b c Hb Hc. by apply Hslice.
  - apply imap_slices_wf; [done|]. intros b c Hb Hc. by apply Hslice.
  - intros b c Hb Hc.
    destruct (wf_slice latent b c Hwf Hb Hc) as (g & Hg & _ & _).
    rewrite (slice_at_imap _ _ _ b c g Hg).
    exists (mt19937_seed (channel_seed identity (dimC (tshape latent)) b c)).
    split; [by apply RandomState_in_range, Hrange|]. by apply Hslice.
Qed.

(** Pixel mode when some channel seed reaches 2**32: the first such slice
    makes [RandomState] raise, and no tensor is produced. *)
Lemma pixel_shuffle_overflow (latent : tensor elem) (identity : Identity) :
  tensor_wf latent ->
  (0 <= seed identity < 2 ^ 32)%Z ->
  (2 ^ 32 < seed identity + Z.of_nat (dimB (tshape latent) * dimC (tshape latent)))%Z ->
  _shuffle_pixels latent identity = Raise ValueError.
Proof.
  intros Hwf Hs Hover. rewrite shuffle_pixels_loop.
  set (B := dimB (tshape latent)) in *. set (C := dimC (tshape latent)) in *.
  set (f := fun (b c : nat) (_ : grid elem) =>
      shuffle_pixels_slice (dimH (tshape latent)) (dimW (tshape latent))
        (channel_seed identity C b c) (slice_at latent b c)).
  set (F := fun b c => slice_result (f b c (slice_at latent b c))).
  set (k0 := Z.to_nat (2 ^ 32 - seed identity)).
  assert (Hk0 : k0 < B * C) by (unfold k0; lia).
  assert (HC : C <> 0) by (intros HC0; rewrite HC0 in Hk0; lia).
  pose proof (Nat.div_mod_eq k0 C) as Hkd.
  assert (Hc0 : k0 mod C < C) by (by apply Nat.mod_upper_bound).
  assert (Hb0 : k0 / C < B) by (apply Nat.Div0.div_lt_upper_bound; lia).
  apply (slice_loop_raise latent f F (k0 / C) (k0 mod C)); try done.
  - intros b c Hc Hlt.
    assert (Hb : b < B) by lia.
    destruct (wf_slice latent b c Hwf Hb Hc) as (g & _ & Hg & Hgwf).
    destruct (shuffle_pixels_slice_spec _ _ (channel_seed identity C b c) g Hgwf)
      as (out & Hout & _).
    { unfold channel_seed. nia. }
    unfold F, f. by rewrite Hg, Hout.
  - unfold f. apply shuffle_pixels_slice_overflow. unfold channel_seed. nia.
Qed.

End PixelMode.

(** * Further properties of the code *)

(** ** The format of the fingerprint *)

Lemma land_255_byte (x : Z) : is_byte (Z.land x 0xFF).
Proof.
  unfold is_byte. change 0xFF with (Z.ones 8). rewrite Z.land_ones by lia.
  apply Z.mod_pos_bound. lia.
Qed.

Lemma be_bytes_4 (x : Z) :
  SHA256.be_bytes 4 x
  = [Z.land (Z.shiftr x 24) 0xFF; Z.land (Z.shiftr x 16) 0xFF;
     Z.land (Z.shiftr x 8) 0xFF; Z.land (Z.shiftr x 0) 0xFF].
Proof. reflexivity. Qed.

Lemma round_length (st : list Z) (kw : Z * Z) :
  length st = 8%nat -> length (SHA256.round st kw) = 8%nat.
Proof.
  intros Hlen. do 9 (destruct st as [|? st]; try discriminate). reflexivity.
Qed.

Lemma rounds_length (kws : list (Z * Z)) (st : list Z) :
  length st = 8%nat -> length (fold_left SHA256.round kws st) = 8%nat.
Proof.
  revert st. induction kws as [|kw kws IH]; intros st Hlen; [exact Hlen|].
  cbn [fold_left]. apply IH. by apply round_length.
Qed.

Lemma compress_length (h : list Z) (block : bytes) :
  length h = 8%nat -> length (SHA256.compress h block) = 8%nat.
Proof.
  intros Hlen. unfold SHA256.compress.
  rewrite length_map, length_combine, rounds_length by exact Hlen. lia.
Qed.

Lemma digest_words_length (blocks : list bytes) (h : list Z) :
  length h = 8%nat -> length (fold_left SHA256.compress blocks h) = 8%nat.
Proof.
  revert h. induction blocks as [|b blocks IH]; intros h Hlen; [exact Hlen|].
  cbn [fold_left]. apply IH. by apply compress_length.
Qed.

(** The digest is the big-endian form of eight words. *)
Lemma sha256_words (msg : bytes) :
  exists w0 w1 w2 w3 w4 w5 w6 w7,
    sha256 msg = flat_map (SHA256.be_bytes 4) [w0; w1; w2; w3; w4; w5; w6; w7].
Proof.
  unfold sha256, SHA256.digest.
  pose proof (digest_words_length
                (SHA256.chunks (length (SHA256.pad msg)) 64 (SHA256.pad msg))
                SHA256.H0 eq_refl) as Hlen.
  destruct (fold_left SHA256.compress _ SHA256.H0) as [|w0 ws]; [discriminate|].
  do 7 (destruct ws as [|? ws]; [discriminate|]).
  destruct ws; [|discriminate]. by do 8 eexists.
Qed.

Lemma sha256_length (msg : bytes) : length (sha256 msg) = 32%nat.
Proof. destruct (sha256_words msg) as (?&?&?&?&?&?&?&?&->). reflexivity. Qed.

Lemma sha256_bytes (msg : bytes) : Forall is_byte (sha256 msg).
Proof.
  destruct (sha256_words msg) as (?&?&?&?&?&?&?&?&->).
  cbn [flat_map]. rewrite !be_bytes_4. cbn [app].
  repeat (apply Forall_cons; split; [apply land_255_byte|]). apply Forall_nil_2.
Qed.

Lemma hex_length (bs : bytes) : length (hex bs) = (2 * length bs)%nat.
Proof.
  induction bs as [|b bs IH]; [reflexivity|].
  change (hex (b :: bs)) with (hex_digit (b / 16) :: hex_digit (b mod 16) :: hex bs).
  cbn [length]. rewrite IH. lia.
Qed.

Lemma hex_digit_lower (d : Z) : 0 <= d < 16 -> is_lower_hex (hex_digit d).
Proof.
  intros Hd. unfold hex_digit, is_lower_hex.
  destruct (Z.ltb_spec d 10); lia.
Qed.

Lemma hex_lower (bs : bytes) : Forall is_byte bs -> Forall is_lower_hex (hex bs).
Proof.
  induction 1 as [|b bs Hb _ IH]; [apply Forall_nil_2|].
  change (hex (b :: bs)) with (hex_digit (b / 16) :: hex_digit (b mod 16) :: hex bs).
  unfold is_byte in Hb.
  apply Forall_cons; split.
  { apply hex_digit_lower. split; [apply Z.div_pos; lia|].
    apply Z.div_lt_upper_bound; lia. }
  apply Forall_cons; split; [|exact IH].
  apply hex_digit_lower. apply Z.mod_pos_bound. lia.
Qed.

Lemma drop_hex (n : nat) (bs : bytes) :
  drop (2 * n) (hex bs) = hex (drop n bs).
Proof.
  revert bs. induction n as [|n IH]; intros [|b bs]; try reflexivity.
  replace (2 * S n)%nat with (S (S (2 * n))) by lia.
  cbn [hex flat_map app drop]. apply IH.
Qed.

(** Four bytes read big-endian after any prefix, reduced modulo 2^32, are
    the integer whose big-endian form is those four bytes. *)
Lemma low_word_bytes (p b3 b2 b1 b0 : Z) :
  is_byte b3 -> is_byte b2 -> is_byte b1 -> is_byte b0 ->
  SHA256.be_bytes 4 (((((p * 256 + b3) * 256 + b2) * 256 + b1) * 256 + b0) mod 2 ^ 32)
  = [b3; b2; b1; b0].
Proof.
  unfold is_byte. intros H3 H2 H1 H0.
  replace (((((p * 256 + b3) * 256 + b2) * 256 + b1) * 256 + b0) mod 2 ^ 32)
    with (b3 * 2 ^ 24 + b2 * 2 ^ 16 + b1 * 2 ^ 8 + b0).
  2:{ apply Z.mod_unique with (q := p); lia. }
  rewrite be_bytes_4. change 0xFF with (Z.ones 8).
  rewrite !Z.land_ones, !Z.shiftr_div_pow2 by lia.
  change (2 ^ 0) with 1. rewrite Z.div_1_r.
  repeat f_equal; Z.div_mod_to_equations; lia.
Qed.

(** The value of four bytes read big-endian after any prefix, modulo 2^32 *)
Lemma low_word_value (p b3 b2 b1 b0 : Z) :
  is_byte b3 -> is_byte b2 -> is_byte b1 -> is_byte b0 ->
  ((((p * 256 + b3) * 256 + b2) * 256 + b1) * 256 + b0) mod 2 ^ 32
  = (((0 * 256 + b3) * 256 + b2) * 256 + b1) * 256 + b0.
Proof.
  unfold is_byte. intros H3 H2 H1 H0. symmetry.
  apply Z.mod_unique with (q := p); lia.
Qed.

(** X1. Whatever the key, a derived identity has a [key_hash] of exactly 64
    characters, each a lower-case hexadecimal digit, and its signature label
    has exactly 19 characters: "CN-" and the first 16 of the hash. *)
Theorem fingerprint_format
    (artist_key : pystr) (sh : shape) (now : float) (identity : Identity) :
  _derive_crypto_identity artist_key sh now = Ok identity ->
  length (key_hash identity) = 64%nat /\
  Forall is_lower_hex (key_hash identity) /\
  length (signature_of identity) = 19%nat /\
  take 3 (signature_of identity) = py "CN-" /\
  drop 3 (signature_of identity) = take 16 (key_hash identity).
Proof.
  unfold _derive_crypto_identity. destruct (encode_utf8 artist_key) as [encoded|]; [|discriminate].
  cbn [rbind]. intros [= <-]. unfold signature_of. cbn [key_hash].
  assert (Hlen : length (hex (sha256 encoded)) = 64%nat)
    by (rewrite hex_length, sha256_length; reflexivity).
  split; [exact Hlen|]. split; [apply hex_lower, sha256_bytes|].
  split; [|split; reflexivity].
  rewrite length_app, length_take, Hlen. reflexivity.
Qed.

(** X2. The signature label discloses the shuffle seed: its last 8
    characters are the seed written as 8 hexadecimal digits (4 big-endian
    bytes).  The seed is the big-endian integer of bytes 4..7 of the digest;
    bytes 0..3 do not enter it. *)
Theorem signature_discloses_seed
    (artist_key : pystr) (encoded : bytes) (sh : shape) (now : float) (identity : Identity) :
  encode_utf8 artist_key = Ok encoded ->
  _derive_crypto_identity artist_key sh now = Ok identity ->
  drop 11 (signature_of identity) = hex (SHA256.be_bytes 4 (seed identity)) /\
  SHA256.be_bytes 4 (seed identity) = take 4 (drop 4 (sha256 encoded)) /\
  seed identity = int_from_bytes_big (take 4 (drop 4 (sha256 encoded))).
Proof.
  intros Henc. unfold _derive_crypto_identity. rewrite Henc. cbn [rbind]. intros [= <-].
  unfold signature_of. cbn [key_hash seed].
  assert (Hvalue : int_from_bytes_big (take 8 (sha256 encoded)) mod 2 ^ 32
                   = int_from_bytes_big (take 4 (drop 4 (sha256 encoded)))).
  { destruct (sha256_words encoded) as (w0&w1&w2&w3&w4&w5&w6&w7&->).
    cbn [flat_map].
    rewrite (be_bytes_4 w0), (be_bytes_4 w1), (be_bytes_4 w2), (be_bytes_4 w3),
      (be_bytes_4 w4), (be_bytes_4 w5), (be_bytes_4 w6), (be_bytes_4 w7).
    cbn [app take drop]. unfold int_from_bytes_big. cbn [fold_left].
    apply low_word_value; apply land_255_byte. }
  assert (Hseed : SHA256.be_bytes 4 (int_from_bytes_big (take 8 (sha256 encoded)) mod 2 ^ 32)
                  = take 4 (drop 4 (sha256 encoded))).
  { destruct (sha256_words encoded) as (w0&w1&w2&w3&w4&w5&w6&w7&->).
    cbn [flat_map].
    rewrite (be_bytes_4 w0), (be_bytes_4 w1), (be_bytes_4 w2), (be_bytes_4 w3),
      (be_bytes_4 w4), (be_bytes_4 w5), (be_bytes_4 w6), (be_bytes_4 w7).
    cbn [app take drop]. unfold int_from_bytes_big. cbn [fold_left].
    rewrite low_word_bytes by apply land_255_byte. reflexivity. }
  split; [|split; [exact Hseed|exact Hvalue]].
  rewrite Hseed. change (py "CN-") with [67; 78; 45]. cbn [app].
  change (drop 11 (67 :: 78 :: 45 :: take 16 (hex (sha256 encoded))))
    with (drop (2 * 4) (take (2 * 8) (hex (sha256 encoded)))).
  rewrite take_hex, drop_hex.
  f_equal.
  destruct (sha256_words encoded) as (w0&w1&w2&w3&w4&w5&w6&w7&->).
  reflexivity.
Qed.

(** ** When the stage raises *)

Lemma utf8_char_raises (c : Z) (e : exn) :
  utf8_char c = Raise e <-> e = UnicodeEncodeError /\ is_surrogate c.
Proof.
  unfold utf8_char, is_surrogate.
  destruct (Z.ltb_spec c 0x80); [split; [discriminate|lia]|].
  destruct (Z.ltb_spec c 0x800); [split; [discriminate|lia]|].
  destruct (Z.leb_spec 0xD800 c); destruct (Z.leb_spec c 0xDFFF); cbn [andb];
    try (destruct (Z.ltb_spec c 0x10000); (split; [discriminate|lia])).
  split; [intros [= <-]; split; [reflexivity|lia]|by intros [-> _]].
Qed.

Lemma encode_utf8_raises (s : pystr) (e : exn) :
  encode_utf8 s = Raise e <-> e = UnicodeEncodeError /\ Exists is_surrogate s.
Proof.
  induction s as [|c s IH]; cbn [encode_utf8].
  { split; [discriminate|]. intros [_ Hex]. by apply Exists_nil in Hex. }
  rewrite Exists_cons.
  destruct (utf8_char c) as [bs|e'] eqn:Hc; cbn [rbind].
  - assert (Hns : ~ is_surrogate c).
    { intros Hsur.
      pose proof (proj2 (utf8_char_raises c UnicodeEncodeError) (conj eq_refl Hsur)) as Hr.
      rewrite Hc in Hr. discriminate. }
    destruct (encode_utf8 s) as [rest|e''] eqn:Hs; cbn [rbind].
    + split; [discriminate|]. intros [He [Hsur|Hex]]; [done|].
      pose proof (proj2 IH (conj He Hex)) as Hr. discriminate.
    + split.
      * intros [= <-]. destruct (proj1 IH eq_refl) as [-> Hex]. split; [done|by right].
      * intros [-> [Hsur|Hex]]; [done|]. exact (proj2 IH (conj eq_refl Hex)).
  - apply utf8_char_raises in Hc as [-> Hsur].
    split; [intros [= <-]; split; [done|by left]|by intros [-> _]].
Qed.

Section StageRaises.
Context {P : Platform}.

(** X3. On a latent dict with a 4-D tensor the stage raises in one case
    only: the ratio is above 0.01 and the key holds a surrogate code point,
    which [encode] refuses outside the [try]; the exception is then
    [UnicodeEncodeError]. In every other case the stage returns. *)
Theorem sign_stage_raises_iff {X : Type} (latent_image : latent_dict elem X)
    (gp : gen_params) (artist_key : pystr) (crypto_blend : float)
    (shuffle_mode : pystr) (now : float) (e : exn) :
  sign_stage latent_image gp artist_key crypto_blend shuffle_mode now = Raise e
  <-> e = UnicodeEncodeError /\
      PrimFloat.ltb blend_threshold crypto_blend = true /\
      Exists is_surrogate artist_key.
Proof.
  unfold sign_stage, _derive_crypto_identity.
  destruct (PrimFloat.ltb blend_threshold crypto_blend).
  2:{ split; [discriminate|]. by intros (_ & ? & _). }
  destruct (encode_utf8 artist_key) as [encoded|e'] eqn:Henc; cbn [rbind].
  - split.
    + destruct (apply_crypto_noise _ _ _ _ _) as [[? ?]|]; discriminate.
    + intros (He & _ & Hex).
      pose proof (proj2 (encode_utf8_raises artist_key e) (conj He Hex)) as Hr.
      rewrite Henc in Hr. discriminate.
  - apply encode_utf8_raises in Henc as [-> Hex].
    split; [intros [= <-]; by repeat split|by intros (-> & _)].
Qed.

End StageRaises.

(** ** Pixel mode, cell by cell *)

Section PixelCells.
Context {P : Platform}.
Local Open Scope nat_scope.

(** Whatever pixel mode returns has the shape of its input. *)
Lemma shuffle_pixels_Ok_wf (latent shuffled : tensor elem) (identity : Identity) :
  tensor_wf latent -> (0 <= seed identity < 2 ^ 32)%Z ->
  _shuffle_pixels latent identity = Ok shuffled ->
  tshape shuffled = tshape latent /\ tensor_wf shuffled.
Proof.
  intros Hwf Hs Hok.
  destruct (Z_le_gt_dec
              (seed identity + Z.of_nat (dimB (tshape latent) * dimC (tshape latent)))
              (2 ^ 32)) as [Hle|Hgt].
  - destruct (pixel_shuffle_gather latent identity Hwf (proj1 Hs) Hle)
      as (out & Hout & Hsh & Hwf' & _).
    rewrite Hout in Hok. injection Hok as <-. by split.
  - rewrite pixel_shuffle_overflow in Hok by (done || lia). discriminate.
Qed.

(** X4. Pixel mode, while every channel seed [seed + b*C + c] is a 32-bit
    integer: the result has the shape of the input, and the cell (y, x) of
    slice (b, c) holds the input cell of the same slice at flat index
    [perm[y*W + x]], where [perm] is the permutation of the H*W positions
    drawn from [RandomState(seed + b*C + c)]. *)
Theorem pixel_mode_cells (latent : tensor elem) (identity : Identity) :
  tensor_wf latent ->
  (0 <= seed identity)%Z ->
  (seed identity + Z.of_nat (dimB (tshape latent) * dimC (tshape latent)) <= 2 ^ 32)%Z ->
  exists shuffled,
    _shuffle_pixels latent identity = Ok shuffled /\
    tshape shuffled = tshape latent /\
    tensor_wf shuffled /\
    forall b c y x,
      b < dimB (tshape latent) -> c < dimC (tshape latent) ->
      y < dimH (tshape latent) -> x < dimW (tshape latent) ->
      exists rng j,
        RandomState (channel_seed identity (dimC (tshape latent)) b c) = Ok rng /\
        permutation rng (dimH (tshape latent) * dimW (tshape latent))
          !! (y * dimW (tshape latent) + x) = Some j /\
        j < dimH (tshape latent) * dimW (tshape latent) /\
        tcell shuffled b c y x
        = tcell latent b c (j / dimW (tshape latent)) (j mod dimW (tshape latent)).
Proof.
  intros Hwf Hs0 Hs1.
  destruct (pixel_shuffle_gather latent identity Hwf Hs0 Hs1)
    as (shuffled & Hok & Hsh & Hwf' & Hslices).
  exists shuffled. split; [exact Hok|]. split; [exact Hsh|]. split; [exact Hwf'|].
  intros b c y x Hb Hc Hy Hx.
  destruct (Hslices b c Hb Hc) as (rng & Hrng & Hout & Hcells).
  destruct (wf_slice latent b c Hwf Hb Hc) as (g & _ & Hg & Hgwf).
  set (Hh := dimH (tshape latent)) in *. set (Ww := dimW (tshape latent)) in *.
  destruct (permutation_lookup rng (Hh * Ww) (y * Ww + x)) as (j & Hj & Hjlt).
  { by apply flat_index_bound. }
  exists rng, j. split; [exact Hrng|]. split; [exact Hj|]. split; [exact Hjlt|].
  unfold tcell. rewrite <- (concat_lookup_wf Hh Ww _ y x Hout Hx), (Hcells _ _ Hj), Hg.
  assert (Hm : j mod Ww < Ww) by (apply Nat.mod_upper_bound; lia).
  rewrite <- (concat_lookup_wf Hh Ww g (j / Ww) (j mod Ww) Hgwf Hm).
  f_equal. pose proof (Nat.div_mod_eq j Ww). lia.
Qed.

(** A list gathered through a permutation of its positions holds the
    same values. *)
Lemma gather_Permutation (rng : rng_state) (n : nat) (out flat : list elem) :
  length out = n -> length flat = n ->
  (forall i j, permutation rng n !! i = Some j -> out !! i = flat !! j) ->
  out ≡ₚ flat.
Proof.
  intros Hout Hflat Hcells.
  apply (Permutation_by_index _ _ n (fun k => nth k (permutation rng n) 0)); try done.
  - intros k Hk. destruct (permutation_lookup rng n k Hk) as (j & Hj & Hjlt).
    by rewrite (nth_lookup_Some _ _ _ _ Hj).
  - intros k1 k2 Hk1 Hk2 Heq.
    destruct (permutation_lookup rng n k1 Hk1) as (j1 & Hj1 & _).
    destruct (permutation_lookup rng n k2 Hk2) as (j2 & Hj2 & _).
    rewrite (nth_lookup_Some _ _ _ _ Hj1), (nth_lookup_Some _ _ _ _ Hj2) in Heq.
    subst j2. by eapply permutation_lookup_inj.
  - intros k Hk. destruct (permutation_lookup rng n k Hk) as (j & Hj & _).
    rewrite (nth_lookup_Some _ _ _ _ Hj). by apply Hcells.
Qed.

(** X5. Pixel mode only rearranges: while every channel seed is a 32-bit
    integer, each (batch, channel) slice of the result holds exactly the
    values of the same slice of the input, each as often as there. *)
Theorem pixel_mode_preserves_values (latent : tensor elem) (identity : Identity) :
  tensor_wf latent ->
  (0 <= seed identity)%Z ->
  (seed identity + Z.of_nat (dimB (tshape latent) * dimC (tshape latent)) <= 2 ^ 32)%Z ->
  exists shuffled,
    _shuffle_pixels latent identity = Ok shuffled /\
    forall b c, b < dimB (tshape latent) -> c < dimC (tshape latent) ->
      concat (slice_at shuffled b c) ≡ₚ concat (slice_at latent b c).
Proof.
  intros Hwf Hs0 Hs1.
  destruct (pixel_shuffle_gather latent identity Hwf Hs0 Hs1)
    as (shuffled & Hok & Hsh & Hwf' & Hslices).
  exists shuffled. split; [exact Hok|].
  intros b c Hb Hc.
  destruct (Hslices b c Hb Hc) as (rng & _ & Hout & Hcells).
  destruct (wf_slice latent b c Hwf Hb Hc) as (g & _ & Hg & Hgwf).
  apply (gather_Permutation rng (dimH (tshape latent) * dimW (tshape latent)));
    [by apply length_concat_wf| |exact Hcells].
  rewrite Hg. by apply length_concat_wf.
Qed.

(** X6. Pixel mode on a tensor with a 32-bit seed raises exactly when the
    last channel seed [seed + B*C - 1] is past 2**32 - 1, and then the
    exception is the [ValueError] of [RandomState]. *)
Theorem pixel_mode_raises_iff (latent : tensor elem) (identity : Identity) :
  tensor_wf latent ->
  (0 <= seed identity < 2 ^ 32)%Z ->
  (_shuffle_pixels latent identity = Raise ValueError
   <-> (2 ^ 32 < seed identity
                 + Z.of_nat (dimB (tshape latent) * dimC (tshape latent)))%Z) /\
  (forall e, _shuffle_pixels latent identity = Raise e -> e = ValueError).
Proof.
  intros Hwf Hs.
  destruct (Z_le_gt_dec
              (seed identity + Z.of_nat (dimB (tshape latent) * dimC (tshape latent)))
              (2 ^ 32)) as [Hle|Hgt].
  - destruct (pixel_shuffle_gather latent identity Hwf (proj1 Hs) Hle)
      as (out & Hout & _).
    rewrite Hout. split; [split; [discriminate|lia]|discriminate].
  - rewrite pixel_shuffle_overflow by (done || lia).
    split; [split; [lia|reflexivity]|]. by intros e [= <-].
Qed.

End PixelCells.

(** ** Block sizes at the edges *)

Section BlockEdges.
Context {P : Platform}.
Local Open Scope nat_scope.

(** A block size above the height or the width leaves no whole block. *)
Lemma no_whole_block (n s : nat) : 0 < s -> (n / s =? 0) = (n <? s).
Proof.
  intros Hs. destruct (Nat.ltb_spec n s) as [Hlt|Hge].
  - apply Nat.eqb_eq. by apply Nat.div_small.
  - apply Nat.eqb_neq. pose proof (Nat.div_str_pos n s). lia.
Qed.

Lemma shuffle_blocks_oversized (latent : tensor elem) (identity : Identity)
    (block_size : Z) :
  (1 <= block_size)%Z ->
  dimH (tshape latent) < Z.to_nat block_size \/
  dimW (tshape latent) < Z.to_nat block_size ->
  _shuffle_blocks latent identity block_size = _shuffle_pixels latent identity.
Proof.
  intros Hbs Hbig. unfold _shuffle_blocks. destruct (tshape latent) as [B C Hh Ww].
  cbn [dimH dimW] in Hbig.
  replace (block_size =? 0)%Z with false by (symmetry; apply Z.eqb_neq; lia).
  replace (block_size <? 0)%Z with false by (symmetry; apply Z.ltb_ge; lia).
  rewrite !no_whole_block by lia.
  destruct Hbig as [Hbig|Hbig]; apply Nat.ltb_lt in Hbig; rewrite Hbig;
    [reflexivity|by rewrite orb_true_r].
Qed.

(** Whatever block mode returns for a block size that is not negative has
    the shape of its input. *)
Lemma shuffle_blocks_Ok_wf (latent shuffled : tensor elem) (identity : Identity)
    (block_size : Z) :
  tensor_wf latent -> (0 <= seed identity < 2 ^ 32)%Z -> (0 <= block_size)%Z ->
  _shuffle_blocks latent identity block_size = Ok shuffled ->
  tshape shuffled = tshape latent /\ tensor_wf shuffled.
Proof.
  intros Hwf Hs Hbs Hok.
  destruct (Z.eq_dec block_size 0%Z) as [->|Hne].
  { unfold _shuffle_blocks in Hok. destruct (tshape latent). discriminate. }
  destruct (le_lt_dec (Z.to_nat block_size) (dimH (tshape latent))) as [HH|HH];
    [destruct (le_lt_dec (Z.to_nat block_size) (dimW (tshape latent))) as [HW|HW]|].
  - destruct (shuffle_blocks_ok latent identity block_size Hwf Hs ltac:(lia) HH HW)
      as (out & Hout & Hsh & Hwf' & _).
    rewrite Hout in Hok. injection Hok as <-. by split.
  - rewrite shuffle_blocks_oversized in Hok by (lia || by right).
    by apply (shuffle_pixels_Ok_wf latent shuffled identity).
  - rewrite shuffle_blocks_oversized in Hok by (lia || by left).
    by apply (shuffle_pixels_Ok_wf latent shuffled identity).
Qed.

(** X7. A block mode whose block size exceeds the height or the width of
    the latent is pixel mode: [_shuffle_latent] returns for it what it
    returns for the mode "pixel", the exception included. *)
Theorem oversized_block_is_pixel_mode (latent : tensor elem) (identity : Identity)
    (shuffle_mode field : pystr) (block_size : Z) :
  shuffle_mode <> py "pixel" ->
  split_on 95 shuffle_mode !! 1 = Some field ->
  py_int field = Some block_size ->
  (1 <= block_size)%Z ->
  dimH (tshape latent) < Z.to_nat block_size \/
  dimW (tshape latent) < Z.to_nat block_size ->
  _shuffle_latent latent identity shuffle_mode
  = _shuffle_latent latent identity (py "pixel").
Proof.
  intros Hmode Hfield Hint Hbs Hbig. unfold _shuffle_latent.
  rewrite (pystr_eqb_false _ _ Hmode), Hfield, Hint.
  replace (pystr_eqb (py "pixel") (py "pixel")) with true by reflexivity.
  by apply shuffle_blocks_oversized.
Qed.

(** The permutation of a single index *)
Lemma permutation_one (st : rng_state) : permutation st 1 = [0].
Proof.
  pose proof (permutation_length st 1) as Hlen.
  destruct (permutation st 1) as [|d [|? ?]] eqn:Hp; try discriminate.
  assert (Hd : d ∈ permutation st 1) by (rewrite Hp; apply list_elem_of_here).
  apply permutation_elem_of in Hd. f_equal. lia.
Qed.

(** X8. Block mode with a single whole block (S <= H < 2S and S <= W < 2S)
    changes nothing: the one block stays where it is, and every cell of the
    result is the cell of the input. *)
Theorem single_block_unchanged (latent : tensor elem) (identity : Identity)
    (block_size : Z) :
  tensor_wf latent ->
  (0 <= seed identity < 2 ^ 32)%Z ->
  (1 <= block_size)%Z ->
  dimH (tshape latent) / Z.to_nat block_size = 1 ->
  dimW (tshape latent) / Z.to_nat block_size = 1 ->
  exists shuffled,
    _shuffle_blocks latent identity block_size = Ok shuffled /\
    tshape shuffled = tshape latent /\
    forall b c y x, tcell shuffled b c y x = tcell latent b c y x.
Proof.
  intros Hwf Hs Hbs Hbh Hbw.
  set (S := Z.to_nat block_size) in *.
  assert (HS : 0 < S) by (unfold S; lia).
  assert (HH : S <= dimH (tshape latent)).
  { pose proof (Nat.Div0.mul_div_le (dimH (tshape latent)) S). nia. }
  assert (HW : S <= dimW (tshape latent)).
  { pose proof (Nat.Div0.mul_div_le (dimW (tshape latent)) S). nia. }
  destruct (shuffle_blocks_ok latent identity block_size Hwf Hs Hbs HH HW)
    as (shuffled & Hok & Hsh & Hwf' & Hslices).
  exists shuffled. split; [exact Hok|]. split; [exact Hsh|].
  intros b c y x. unfold tcell.
  destruct (le_lt_dec (dimB (tshape latent)) b) as [Hb|Hb].
  { unfold slice_at. destruct Hwf as [HlB _], Hwf' as [HlB' _]. rewrite Hsh in HlB'.
    rewrite (lookup_ge_None_2 (tdata shuffled)), (lookup_ge_None_2 (tdata latent)) by lia.
    reflexivity. }
  destruct (le_lt_dec (dimC (tshape latent)) c) as [Hc|Hc].
  { unfold slice_at. destruct Hwf as [HlB HimgB], Hwf' as [HlB' HimgB'].
    rewrite Hsh in HlB', HimgB'.
    rewrite Forall_lookup in HimgB. rewrite Forall_lookup in HimgB'.
    destruct (tdata shuffled !! b) as [img'|] eqn:Hi'; destruct (tdata latent !! b) as [img|] eqn:Hi;
      cbn [mbind option_bind];
      try (apply lookup_ge_None in Hi; apply lookup_lt_Some in Hi'; lia);
      try (apply lookup_ge_None in Hi'; apply lookup_lt_Some in Hi; lia);
      [|reflexivity].
    destruct (HimgB _ _ Hi) as [Hl _]. destruct (HimgB' _ _ Hi') as [Hl' _].
    rewrite (lookup_ge_None_2 img'), (lookup_ge_None_2 img) by lia. reflexivity. }
  destruct (Hslices b c Hb Hc) as (Hslice & Houtwf).
  destruct (wf_slice latent b c Hwf Hb Hc) as (g & _ & Hg & Hgwf).
  rewrite Hg in *.
  destruct (shuffle_blocks_slice_spec S _ _
              (permutation (mt19937_seed (seed identity))
                 (dimH (tshape latent) / S * (dimW (tshape latent) / S)))
              g HS Hgwf) as (out & Hout & _ & Hcells & Hrest).
  { apply permutation_NoDup. }
  { apply permutation_length. }
  { intros i d Hd. apply (permutation_elem_of (mt19937_seed (seed identity))).
    by eapply list_elem_of_lookup_2. }
  fold S in Hslice. rewrite Hslice in Hout. injection Hout as <-.
  rewrite Hbh, Hbw in Hcells, Hrest. cbn [Nat.mul] in Hcells.
  rewrite permutation_one in Hcells.
  destruct (le_lt_dec S y) as [Hy|Hy]; [apply Hrest; lia|].
  destruct (le_lt_dec S x) as [Hx|Hx]; [apply Hrest; lia|].
  specialize (Hcells 0 0 y x eq_refl Hy Hx). 
  rewrite Nat.div_1_r, Nat.mod_1_r in Hcells. exact Hcells.
Qed.

End BlockEdges.

(** ** A grid as its top-left region, the strip right of it and the rows
    below *)

Section Regions.
Context {E : Type}.
Local Open Scope nat_scope.

Lemma rows_split_Permutation (w : nat) (rows : grid E) :
  concat rows ≡ₚ concat (take w <$> rows) ++ concat (drop w <$> rows).
Proof.
  induction rows as [|r rows IH]; [reflexivity|].
  cbn [fmap list_fmap concat]. rewrite <- (take_drop w r) at 1.
  rewrite IH, <- !app_assoc. apply Permutation_app_head.
  rewrite !app_assoc. apply Permutation_app_tail, Permutation_app_comm.
Qed.

Lemma grid_split_Permutation (h w : nat) (g : grid E) :
  concat g ≡ₚ concat (crop h w g) ++ concat (drop w <$> take h g) ++ concat (drop h g).
Proof.
  rewrite <- (take_drop h g) at 1. rewrite concat_app, app_assoc.
  apply Permutation_app_tail. unfold crop. apply rows_split_Permutation.
Qed.

Lemma below_wf (H W h : nat) (g : grid E) :
  grid_wf H W g -> grid_wf (H - h) W (drop h g).
Proof.
  intros [HH HW]. split; [rewrite length_drop; lia|]. by apply Forall_drop.
Qed.

Lemma cell_below (h : nat) (g : grid E) (y x : nat) :
  cell (drop h g) y x = cell g (h + y) x.
Proof. unfold cell. by rewrite lookup_drop. Qed.

Lemma right_wf (H W h w : nat) (g : grid E) :
  grid_wf H W g -> h <= H -> grid_wf h (W - w) (drop w <$> take h g).
Proof.
  intros [HH HW] Hh. split; [rewrite length_fmap, length_take; lia|].
  apply Forall_fmap, Forall_take. eapply Forall_impl; [exact HW|].
  intros r Hr. unfold compose. rewrite length_drop, Hr. reflexivity.
Qed.

Lemma cell_right (h w : nat) (g : grid E) (y x : nat) :
  y < h -> cell (drop w <$> take h g) y x = cell g y (w + x).
Proof.
  intros Hy. unfold cell. rewrite list_lookup_fmap, lookup_take.
  case_decide; [|lia].
  destruct (g !! y) as [r|]; osimpl; [|reflexivity]. by rewrite lookup_drop.
Qed.

(** Blocks permuted inside the top-left region and all other cells kept:
    the grid holds the same values. *)
Lemma region_cells_Permutation (H W s bh bw : nat) (perm : list nat) (g out : grid E) :
  0 < s -> bh * s <= H -> bw * s <= W ->
  grid_wf H W g -> grid_wf H W out ->
  perm ≡ₚ seq 0 (bh * bw) ->
  (forall idx d dy dx, perm !! idx = Some d -> dy < s -> dx < s ->
     cell out (d / bw * s + dy) (d mod bw * s + dx)
     = cell g (idx / bw * s + dy) (idx mod bw * s + dx)) ->
  (forall y x, bh * s <= y \/ bw * s <= x -> cell out y x = cell g y x) ->
  concat out ≡ₚ concat g.
Proof.
  intros Hs HbH HbW Hg Hout Hperm Hcells Hrest.
  rewrite (grid_split_Permutation (bh * s) (bw * s) out),
    (grid_split_Permutation (bh * s) (bw * s) g).
  assert (Hbelow : drop (bh * s) out = drop (bh * s) g).
  { apply (grid_wf_eq (H - bh * s) W); [by apply below_wf..|].
    intros y x _ _. rewrite !cell_below. apply Hrest. lia. }
  assert (Hright : drop (bw * s) <$> take (bh * s) out
                   = drop (bw * s) <$> take (bh * s) g).
  { apply (grid_wf_eq (bh * s) (W - bw * s)); [by apply (right_wf H W)..|].
    intros y x Hy _. rewrite !cell_right by done. apply Hrest. lia. }
  rewrite Hbelow, Hright. apply Permutation_app_tail.
  apply (block_cells_Permutation s bh bw perm); try done.
  - by apply (crop_wf H W).
  - by apply (crop_wf H W).
  - intros idx d dy dx Hd Hdy Hdx. rewrite !cell_crop.
    assert (Hdlt : d < bh * bw).
    { assert (Hin : d ∈ perm) by (by eapply list_elem_of_lookup_2).
      rewrite Hperm in Hin. apply elem_of_seq in Hin. lia. }
    assert (Hilt : idx < bh * bw).
    { apply lookup_lt_Some in Hd. apply Permutation_length in Hperm.
      rewrite length_seq in Hperm. lia. }
    destruct (block_index_bounds bh bw d Hdlt) as [Hq Hr].
    destruct (block_index_bounds bh bw idx Hilt) as [Hq' Hr'].
    replace ((d / bw * s + dy <? bh * s) && (d mod bw * s + dx <? bw * s))
      with true by (symmetry; rewrite !andb_true_iff, !Nat.ltb_lt; nia).
    replace ((idx / bw * s + dy <? bh * s) && (idx mod bw * s + dx <? bw * s))
      with true by (symmetry; rewrite !andb_true_iff, !Nat.ltb_lt; nia).
    by apply Hcells.
Qed.

End Regions.

Section BlockAnySize.
Context {P : Platform}.
Local Open Scope nat_scope.

(** The block copy of one slice holds the values of the slice. *)
Lemma shuffle_blocks_slice_Permutation (S Hh Ww : nat) (rng : rng_state)
    (g out : grid elem) :
  0 < S -> grid_wf Hh Ww g ->
  shuffle_blocks_slice S (Ww / S) (Hh / S * (Ww / S)) (Hh / S * S) (Ww / S * S)
    (permutation rng (Hh / S * (Ww / S))) g g = Ok out ->
  concat out ≡ₚ concat g.
Proof.
  intros HS Hgwf Hout.
  set (perm := permutation rng (Hh / S * (Ww / S))) in *.
  assert (Hrange : forall i d, perm !! i = Some d -> d < Hh / S * (Ww / S)).
  { intros i d Hd. apply (permutation_elem_of rng). by eapply list_elem_of_lookup_2. }
  destruct (shuffle_blocks_slice_spec S _ _ perm g HS Hgwf
              (permutation_NoDup _ _) (permutation_length _ _) Hrange)
    as (out' & Hout' & Houtwf & Hcells & Hrest).
  rewrite Hout in Hout'. injection Hout' as <-.
  apply (region_cells_Permutation Hh Ww S (Hh / S) (Ww / S) perm); try done.
  - apply crop_bounds.
  - apply crop_bounds.
  - apply permutation_Permutation.
Qed.

(** X9. Block mode only rearranges, whether or not the block size divides
    the height and the width: for H >= S and W >= S each (batch, channel)
    slice of the result holds exactly the values of the same slice of the
    input, each as often as there. *)
Theorem block_mode_preserves_values (latent : tensor elem) (identity : Identity)
    (block_size : Z) :
  tensor_wf latent ->
  (0 <= seed identity < 2 ^ 32)%Z ->
  (1 <= block_size)%Z ->
  Z.to_nat block_size <= dimH (tshape latent) ->
  Z.to_nat block_size <= dimW (tshape latent) ->
  exists shuffled,
    _shuffle_blocks latent identity block_size = Ok shuffled /\
    tshape shuffled = tshape latent /\
    tensor_wf shuffled /\
    forall b c, b < dimB (tshape latent) -> c < dimC (tshape latent) ->
      concat (slice_at shuffled b c) ≡ₚ concat (slice_at latent b c).
Proof.
  intros Hwf Hseed Hbs HSH HSW.
  destruct (shuffle_blocks_ok latent identity block_size Hwf Hseed Hbs HSH HSW)
    as (shuffled & Hrun & Hshape & Hswf & Hslices).
  exists shuffled. split; [exact Hrun|]. split; [exact Hshape|]. split; [exact Hswf|].
  intros b c Hb Hc. destruct (Hslices b c Hb Hc) as [Hout _].
  destruct (wf_slice latent b c Hwf Hb Hc) as (g & _ & Hg & Hgwf).
  rewrite Hg in *.
  apply (shuffle_blocks_slice_Permutation (Z.to_nat block_size)
           (dimH (tshape latent)) (dimW (tshape latent))
           (mt19937_seed (seed identity))); [lia|done|exact Hout].
Qed.

End BlockAnySize.

(** ** The modes that the node offers *)

Section OfferedModes.
Context {P : Platform}.
Local Open Scope nat_scope.

(** The mode "pixel" and every mode with a positive block size rearrange
    each slice, while the channel seeds of pixel mode are 32-bit integers. *)
Lemma shuffle_latent_rearranges (latent : tensor elem) (identity : Identity)
    (shuffle_mode : pystr) :
  tensor_wf latent ->
  (0 <= seed identity < 2 ^ 32)%Z ->
  (seed identity + Z.of_nat (dimB (tshape latent) * dimC (tshape latent)) <= 2 ^ 32)%Z ->
  shuffle_mode = py "pixel" \/
  (exists field block_size,
     split_on 95 shuffle_mode !! 1 = Some field /\
     py_int field = Some block_size /\ (1 <= block_size)%Z) ->
  exists shuffled,
    _shuffle_latent latent identity shuffle_mode = Ok shuffled /\
    tshape shuffled = tshape latent /\
    tensor_wf shuffled /\
    forall b c, b < dimB (tshape latent) -> c < dimC (tshape latent) ->
      concat (slice_at shuffled b c) ≡ₚ concat (slice_at latent b c).
Proof.
  intros Hwf Hs0 Hs1 Hmode.
  assert (Hpixel : exists shuffled,
            _shuffle_pixels latent identity = Ok shuffled /\
            tshape shuffled = tshape latent /\
            tensor_wf shuffled /\
            forall b c, b < dimB (tshape latent) -> c < dimC (tshape latent) ->
              concat (slice_at shuffled b c) ≡ₚ concat (slice_at latent b c)).
  { destruct (pixel_shuffle_gather latent identity Hwf (proj1 Hs0) Hs1)
      as (shuffled & Hok & Hsh & Hwf' & Hslices).
    exists shuffled. split; [exact Hok|]. split; [exact Hsh|]. split; [exact Hwf'|].
    intros b c Hb Hc.
    destruct (Hslices b c Hb Hc) as (rng & _ & Hout & Hcells).
    destruct (wf_slice latent b c Hwf Hb Hc) as (g & _ & Hg & Hgwf).
    apply (gather_Permutation rng (dimH (tshape latent) * dimW (tshape latent)));
      [by apply length_concat_wf| |exact Hcells].
    rewrite Hg. by apply length_concat_wf. }
  unfold _shuffle_latent.
  destruct (pystr_eqb shuffle_mode (py "pixel")) eqn:Heqb; [exact Hpixel|].
  destruct Hmode as [->|(field & block_size & Hfield & Hint & Hbs)]; [discriminate|].
  rewrite Hfield, Hint.
  destruct (le_lt_dec (Z.to_nat block_size) (dimH (tshape latent))) as [HH|HH];
    [destruct (le_lt_dec (Z.to_nat block_size) (dimW (tshape latent))) as [HW|HW]|].
  - destruct (shuffle_blocks_ok latent identity block_size Hwf Hs0 Hbs HH HW)
      as (shuffled & Hrun & Hshape & Hswf & Hslices).
    exists shuffled. split; [exact Hrun|]. split; [exact Hshape|]. split; [exact Hswf|].
    intros b c Hb Hc. destruct (Hslices b c Hb Hc) as [Hout _].
    destruct (wf_slice latent b c Hwf Hb Hc) as (g & _ & Hg & Hgwf).
    rewrite Hg in *.
    apply (shuffle_blocks_slice_Permutation (Z.to_nat block_size)
             (dimH (tshape latent)) (dimW (tshape latent))
             (mt19937_seed (seed identity))); [lia|done|exact Hout].
  - rewrite shuffle_blocks_oversized by (lia || by right). exact Hpixel.
  - rewrite shuffle_blocks_oversized by (lia || by left). exact Hpixel.
Qed.

(** X10. Every shuffle mode that [INPUT_TYPES] offers works on every
    latent: where [int] reads "8", "16" and "32" as these numbers and the
    channel seeds of pixel mode stay 32-bit integers, [_shuffle_latent]
    returns a tensor of the shape of the input whose (batch, channel)
    slices hold the values of the input slices, whether the blocks fit the
    latent or not. The default mode is one of the choices. *)
Theorem offered_modes_rearrange (latent : tensor elem) (identity : Identity)
    (shuffle_mode : pystr) :
  py_int (py "8") = Some 8%Z ->
  py_int (py "16") = Some 16%Z ->
  py_int (py "32") = Some 32%Z ->
  shuffle_mode ∈ choices INPUT_TYPES_shuffle_mode ->
  tensor_wf latent ->
  (0 <= seed identity < 2 ^ 32)%Z ->
  (seed identity + Z.of_nat (dimB (tshape latent) * dimC (tshape latent)) <= 2 ^ 32)%Z ->
  combo_default INPUT_TYPES_shuffle_mode ∈ choices INPUT_TYPES_shuffle_mode /\
  exists shuffled,
    _shuffle_latent latent identity shuffle_mode = Ok shuffled /\
    tshape shuffled = tshape latent /\
    tensor_wf shuffled /\
    forall b c, b < dimB (tshape latent) -> c < dimC (tshape latent) ->
      concat (slice_at shuffled b c) ≡ₚ concat (slice_at latent b c).
Proof.
  intros H8 H16 H32 Hin Hwf Hs0 Hs1.
  split; [apply list_elem_of_here|].
  apply shuffle_latent_rearranges; try done.
  cbn [choices INPUT_TYPES_shuffle_mode] in Hin.
  rewrite !elem_of_cons, elem_of_nil in Hin.
  destruct Hin as [->|[->|[->|[->|[]]]]].
  - right. exists (py "8"), 8%Z. split; [reflexivity|]. split; [exact H8|lia].
  - right. exists (py "16"), 16%Z. split; [reflexivity|]. split; [exact H16|lia].
  - right. exists (py "32"), 32%Z. split; [reflexivity|]. split; [exact H32|lia].
  - by left.
Qed.

End OfferedModes.

(** ** Element-wise maps keep the shape *)

Section MapFacts.
Context {E : Type}.
Local Open Scope nat_scope.

Lemma Forall_zip_with {A B C : Type} (f : A -> B -> C) (Q : C -> Prop)
    (l : list A) (k : list B) :
  (forall i x y, l !! i = Some x -> k !! i = Some y -> Q (f x y)) ->
  Forall Q (zip_with f l k).
Proof.
  intros Hf. apply Forall_lookup. intros i z Hz.
  apply lookup_zip_with_Some in Hz as (x & y & -> & Hx & Hy). by eapply Hf.
Qed.

Lemma tmap_wf (f : E -> E) (t : tensor E) : tensor_wf t -> tensor_wf (tmap f t).
Proof.
  intros [HB Himg]. split; cbn [tmap tdata tshape]; [by rewrite length_fmap|].
  apply Forall_fmap. eapply Forall_impl; [exact Himg|].
  intros img [HC Hgs]. cbn. split; [by rewrite length_fmap|].
  apply Forall_fmap. eapply Forall_impl; [exact Hgs|].
  intros g [HH Hrows]. cbn. split; [by rewrite length_fmap|].
  apply Forall_fmap. eapply Forall_impl; [exact Hrows|].
  intros r Hr. cbn. by rewrite length_fmap.
Qed.

Lemma tzip_wf (f : E -> E -> E) (t1 t2 : tensor E) :
  tensor_wf t1 -> tensor_wf t2 -> tshape t2 = tshape t1 -> tensor_wf (tzip f t1 t2).
Proof.
  intros [HB1 Himg1] [HB2 Himg2] Hsh. rewrite Hsh in HB2, Himg2.
  rewrite Forall_lookup in Himg1. rewrite Forall_lookup in Himg2.
  split; cbn [tzip tdata tshape]; [rewrite length_zip_with; lia|].
  apply Forall_zip_with. intros b img1 img2 H1 H2.
  destruct (Himg1 _ _ H1) as [HC1 Hg1]. destruct (Himg2 _ _ H2) as [HC2 Hg2].
  rewrite Forall_lookup in Hg1. rewrite Forall_lookup in Hg2.
  split; [rewrite length_zip_with; lia|].
  apply Forall_zip_with. intros c g1 g2 G1 G2.
  destruct (Hg1 _ _ G1) as [HH1 Hr1]. destruct (Hg2 _ _ G2) as [HH2 Hr2].
  rewrite Forall_lookup in Hr1. rewrite Forall_lookup in Hr2.
  split; [rewrite length_zip_with; lia|].
  apply Forall_zip_with. intros y r1 r2 R1 R2.
  pose proof (Hr1 _ _ R1). pose proof (Hr2 _ _ R2).
  rewrite length_zip_with. lia.
Qed.

End MapFacts.

Section StageOutcomes.
Context {P : Platform}.
Local Open Scope nat_scope.

Lemma blend_wf (samples crypto_noise : tensor elem) (crypto_blend : float) :
  tensor_wf samples -> tensor_wf crypto_noise -> tshape crypto_noise = tshape samples ->
  tshape (blend samples crypto_noise crypto_blend) = tshape samples /\
  tensor_wf (blend samples crypto_noise crypto_blend).
Proof.
  intros Hs Hn Hsh. unfold blend. destruct (PrimFloat.ltb crypto_blend 1).
  - split; [reflexivity|]. apply tzip_wf; [by apply tmap_wf|by apply tmap_wf|].
    exact Hsh.
  - by split.
Qed.

(** Whatever [_shuffle_latent] returns has the shape of its input, negative
    block sizes apart. *)
Lemma shuffle_latent_Ok_wf (latent shuffled : tensor elem) (identity : Identity)
    (shuffle_mode : pystr) :
  tensor_wf latent -> (0 <= seed identity < 2 ^ 32)%Z ->
  (forall field block_size,
     split_on 95 shuffle_mode !! 1 = Some field -> py_int field = Some block_size ->
     (0 <= block_size)%Z) ->
  _shuffle_latent latent identity shuffle_mode = Ok shuffled ->
  tshape shuffled = tshape latent /\ tensor_wf shuffled.
Proof.
  intros Hwf Hs Hnn. unfold _shuffle_latent.
  destruct (pystr_eqb shuffle_mode (py "pixel")).
  { by apply shuffle_pixels_Ok_wf. }
  destruct (split_on 95 shuffle_mode !! 1) as [field|]; [|discriminate].
  destruct (py_int field) as [block_size|] eqn:Hint; [|discriminate].
  apply shuffle_blocks_Ok_wf; try done. by eapply Hnn.
Qed.

Lemma signature_not_error (identity : Identity) :
  signature_of identity <> py "error" /\ signature_of identity <> py "unsigned".
Proof. split; discriminate. Qed.

(** X11. The stage never changes the shape: for a well-formed input tensor
    and a mode that does not name a negative block size, the latent handed
    to the sampler is a well-formed tensor of the shape of the input, whether
    the stage signed, fell back or was skipped. *)
Theorem sign_stage_keeps_shape {X : Type} (latent_image : latent_dict elem X)
    (gp : gen_params) (artist_key : pystr) (crypto_blend : float)
    (shuffle_mode : pystr) (now : float) (out : stage_out X) :
  tensor_wf (samples latent_image) ->
  (forall field block_size,
     split_on 95 shuffle_mode !! 1 = Some field -> py_int field = Some block_size ->
     (0 <= block_size)%Z) ->
  sign_stage latent_image gp artist_key crypto_blend shuffle_mode now = Ok out ->
  tshape (samples (signed_latent out)) = tshape (samples latent_image) /\
  tensor_wf (samples (signed_latent out)).
Proof.
  intros Hwf Hnn. unfold sign_stage.
  destruct (PrimFloat.ltb blend_threshold crypto_blend); [|by intros [= <-]].
  destruct (_derive_crypto_identity artist_key (tshape (samples latent_image)) now)
    as [identity|] eqn:Hd; [|discriminate].
  cbn [rbind]. unfold apply_crypto_noise.
  destruct (randn (seed identity) (tshape (samples latent_image))) as [base|] eqn:Hbase;
    cbn [rbind]; [|by intros [= <-]].
  destruct (randn_wf _ _ _ Hbase) as [Hbsh Hbwf].
  destruct (_shuffle_latent base identity shuffle_mode) as [noise|] eqn:Hshuf;
    cbn [rbind]; [|by intros [= <-]].
  intros [= <-]. cbn [signed_latent samples].
  destruct (shuffle_latent_Ok_wf base noise identity shuffle_mode Hbwf
              (seed_range _ _ _ _ Hd) Hnn Hshuf) as [Hnsh Hnwf].
  apply blend_wf; [done|done|congruence].
Qed.

(** X12. The three outcomes of the stage. If it returns, then exactly one
    of these holds: the signature is "unsigned", the ratio is not above
    0.01, and latent and record are untouched; or the signature is "error",
    the ratio is above 0.01, and latent and record are untouched; or the
    signature is "CN-" and 16 characters of the fingerprint, differs from
    both words, the latent dict holds nothing but the blended samples, and
    the provenance record carries this signature, the fingerprint, the
    seed, the ratio, the mode, the shape of the input and the clock
    reading. *)
Theorem sign_stage_outcomes {X : Type} (latent_image : latent_dict elem X)
    (gp : gen_params) (artist_key : pystr) (crypto_blend : float)
    (shuffle_mode : pystr) (now : float) (out : stage_out X) :
  sign_stage latent_image gp artist_key crypto_blend shuffle_mode now = Ok out ->
  (PrimFloat.ltb blend_threshold crypto_blend = false /\
   out = StageOut latent_image (py "unsigned") None) \/
  (PrimFloat.ltb blend_threshold crypto_blend = true /\
   out = StageOut latent_image (py "error") None) \/
  (PrimFloat.ltb blend_threshold crypto_blend = true /\
   signature out <> py "unsigned" /\ signature out <> py "error" /\
   other_keys (signed_latent out) = [] /\
   exists identity v,
     _derive_crypto_identity artist_key (tshape (samples latent_image)) now = Ok identity /\
     verification_info out = Some v /\
     signature out = py "CN-" ++ take 16 (key_hash identity) /\
     v_artist_signature v = signature out /\
     v_artist_key_hash v = key_hash identity /\
     v_crypto_seed v = seed identity /\
     v_blend_strength v = crypto_blend /\
     v_shuffle_mode v = shuffle_mode /\
     v_latent_shape v = [dimB (tshape (samples latent_image));
                         dimC (tshape (samples latent_image));
                         dimH (tshape (samples latent_image));
                         dimW (tshape (samples latent_image))] /\
     v_generation v = gp /\
     v_timestamp v = now).
Proof.
  unfold sign_stage.
  destruct (PrimFloat.ltb blend_threshold crypto_blend); [|intros [= <-]; by left].
  destruct (_derive_crypto_identity artist_key (tshape (samples latent_image)) now)
    as [identity|] eqn:Hd; [|discriminate].
  cbn [rbind].
  destruct (apply_crypto_noise (samples latent_image) identity crypto_blend
              shuffle_mode gp) as [[blended info]|] eqn:Ha;
    [|intros [= <-]; right; by left].
  intros [= <-]. right. right. cbn [signature signed_latent other_keys verification_info].
  split; [reflexivity|].
  split; [apply signature_not_error|]. split; [apply signature_not_error|].
  split; [reflexivity|].
  exists identity, info. split; [reflexivity|]. split; [reflexivity|].
  unfold apply_crypto_noise in Ha.
  destruct (randn _ _); [|discriminate]. cbn [rbind] in Ha.
  destruct (_shuffle_latent _ _ _); [|discriminate]. cbn [rbind] in Ha.
  injection Ha as _ <-.
  unfold _derive_crypto_identity in Hd.
  destruct (encode_utf8 artist_key); [|discriminate]. cbn [rbind] in Hd.
  injection Hd as <-. repeat split.
Qed.

End StageOutcomes.

Section StageEdges.
Context {P : Platform}.
Local Open Scope nat_scope.

(** X13. A mode whose second field reads as the integer 0 ("block_0")
    makes [H // block_size] divide by zero; the exception is caught, and
    the stage hands the input latent on under the signature "error". *)
Theorem zero_block_size_falls_back {X : Type} (latent_image : latent_dict elem X)
    (gp : gen_params) (artist_key : pystr) (encoded : bytes) (crypto_blend : float)
    (shuffle_mode field : pystr) (now : float) :
  PrimFloat.ltb blend_threshold crypto_blend = true ->
  encode_utf8 artist_key = Ok encoded ->
  shuffle_mode <> py "pixel" ->
  split_on 95 shuffle_mode !! 1 = Some field ->
  py_int field = Some 0%Z ->
  (forall (t : tensor elem) (identity : Identity),
     _shuffle_latent t identity shuffle_mode = Raise ZeroDivisionError) /\
  sign_stage latent_image gp artist_key crypto_blend shuffle_mode now
  = Ok (StageOut latent_image (py "error") None).
Proof.
  intros Hr Henc Hmode Hfield Hint.
  assert (Hraise : forall (t : tensor elem) (identity : Identity),
            _shuffle_latent t identity shuffle_mode = Raise ZeroDivisionError).
  { intros t identity. unfold _shuffle_latent.
    rewrite (pystr_eqb_false _ _ Hmode), Hfield, Hint.
    unfold _shuffle_blocks. by destruct (tshape t). }
  split; [exact Hraise|].
  unfold sign_stage, _derive_crypto_identity. rewrite Hr, Henc. cbn [rbind].
  unfold apply_crypto_noise. cbn [seed].
  destruct (randn _ _); cbn [rbind]; [|reflexivity].
  by rewrite Hraise.
Qed.

(** X14. At a ratio of 1.0 or more the blend is the shuffled noise alone:
    two latents of one shape, whatever their values, get the same
    signature and the same provenance record, and whenever the stage signs,
    the same signed latent. *)
Theorem full_blend_ignores_latent {X : Type} (latent1 latent2 : latent_dict elem X)
    (gp : gen_params) (artist_key : pystr) (crypto_blend : float)
    (shuffle_mode : pystr) (now : float) :
  PrimFloat.ltb blend_threshold crypto_blend = true ->
  PrimFloat.ltb crypto_blend 1 = false ->
  tshape (samples latent1) = tshape (samples latent2) ->
  match sign_stage latent1 gp artist_key crypto_blend shuffle_mode now,
        sign_stage latent2 gp artist_key crypto_blend shuffle_mode now with
  | Ok o1, Ok o2 =>
      signature o1 = signature o2 /\
      verification_info o1 = verification_info o2 /\
      (signature o1 <> py "error" -> signed_latent o1 = signed_latent o2)
  | Raise e1, Raise e2 => e1 = e2
  | _, _ => False
  end.
Proof.
  intros Hr Hfull Hsh. unfold sign_stage. rewrite Hr, Hsh.
  destruct (_derive_crypto_identity artist_key (tshape (samples latent2)) now)
    as [identity|]; cbn [rbind]; [|reflexivity].
  unfold apply_crypto_noise, blend. rewrite Hfull, Hsh.
  destruct (randn _ _); cbn [rbind]; [|by repeat split].
  destruct (_shuffle_latent _ _ _); cbn [rbind]; by repeat split.
Qed.

(** X15. What [sample] returns. When the signature is "unsigned" or
    "error", the verification string is "{}" and the sampler ran on the
    latent dict that was passed in, all its keys included; otherwise the
    sampler ran on a dict with the key "samples" only, and the verification
    string is the JSON form of a record that carries the returned
    signature. *)
Theorem sample_outputs {X R : Type} (common_ksampler : latent_dict elem X -> result R)
    (latent_image : latent_dict elem X) (gp : gen_params) (artist_key : pystr)
    (crypto_blend : float) (shuffle_mode : pystr) (now : float)
    (res : R) (sig json : pystr) :
  sample common_ksampler latent_image gp artist_key crypto_blend shuffle_mode now
  = Ok (res, sig, json) ->
  ((sig = py "unsigned" \/ sig = py "error") /\
   json = py "{}" /\
   common_ksampler latent_image = Ok res) \/
  (sig <> py "unsigned" /\ sig <> py "error" /\
   exists blended v,
     common_ksampler (LatentDict blended []) = Ok res /\
     json = json_dumps v /\
     v_artist_signature v = sig).
Proof.
  unfold sample, sign_stage.
  destruct (PrimFloat.ltb blend_threshold crypto_blend); cbn [rbind].
  2:{ cbn [signed_latent signature verification_info verification_json].
      destruct (common_ksampler latent_image); [|discriminate].
      cbn [rbind]. intros [= <- <- <-]. left. split; [by left|]. by split. }
  destruct (_derive_crypto_identity artist_key (tshape (samples latent_image)) now)
    as [identity|]; [|discriminate].
  cbn [rbind].
  destruct (apply_crypto_noise (samples latent_image) identity crypto_blend
              shuffle_mode gp) as [[blended info]|] eqn:Ha; cbn [rbind].
  - cbn [signed_latent signature verification_info verification_json].
    destruct (common_ksampler (LatentDict blended [])) eqn:Hk; [|discriminate].
    cbn [rbind]. intros [= <- <- <-]. right.
    split; [apply signature_not_error|]. split; [apply signature_not_error|].
    exists blended, info. split; [exact Hk|]. split; [reflexivity|].
    unfold apply_crypto_noise in Ha.
    destruct (randn _ _); [|discriminate]. cbn [rbind] in Ha.
    destruct (_shuffle_latent _ _ _); [|discriminate]. cbn [rbind] in Ha.
    by injection Ha as _ <-.
  - cbn [signed_latent signature verification_info verification_json].
    destruct (common_ksampler latent_image); [|discriminate].
    cbn [rbind]. intros [= <- <- <-]. left. split; [by right|]. by split.
Qed.

End StageEdges.

(** ** The paths through the stage *)

Section StagePaths.
Context {P : Platform}.
Local Open Scope nat_scope.

(** X16. Pixel mode with a seed in the last B*C values below 2**32 never
    signs: whatever the latent and the ratio above 0.01, the last channel
    seed is past 2**32 - 1, [RandomState] raises inside the [try] (unless
    [torch.randn] did before), and the stage hands the input latent on under
    the signature "error". *)
Theorem pixel_overflow_falls_back {X : Type} (latent_image : latent_dict elem X)
    (gp : gen_params) (artist_key : pystr) (crypto_blend : float) (now : float)
    (identity : Identity) :
  PrimFloat.ltb blend_threshold crypto_blend = true ->
  _derive_crypto_identity artist_key (tshape (samples latent_image)) now = Ok identity ->
  (2 ^ 32 < seed identity
            + Z.of_nat (dimB (tshape (samples latent_image))
                        * dimC (tshape (samples latent_image))))%Z ->
  sign_stage latent_image gp artist_key crypto_blend (py "pixel") now
  = Ok (StageOut latent_image (py "error") None).
Proof.
  intros Hr Hd Hover.
  destruct (randn (seed identity) (tshape (samples latent_image))) as [base|e] eqn:Hbase.
  - destruct (randn_wf _ _ _ Hbase) as [Hsh Hwf].
    apply (sign_stage_try_fallback _ _ _ _ _ _ identity ValueError Hr Hd).
    unfold apply_crypto_noise. rewrite Hbase. cbn [rbind].
    unfold _shuffle_latent.
    replace (pystr_eqb (py "pixel") (py "pixel")) with true by reflexivity.
    rewrite pixel_shuffle_overflow; [reflexivity|exact Hwf| |by rewrite Hsh].
    by eapply seed_range.
  - apply (sign_stage_try_fallback _ _ _ _ _ _ identity e Hr Hd).
    unfold apply_crypto_noise. by rewrite Hbase.
Qed.

(** X17. When the stage signs. With a ratio above 0.01, a key that has
    UTF-8 bytes, a mode that is "pixel" or names a block size of at least 1,
    and channel seeds within 32 bits, the stage signs whenever [torch.randn]
    returns: the noise is a rearrangement of each slice of what [randn]
    returned, the latent dict holds the blend of the samples with it, and
    the signature and the record are those of the derived identity. *)
Theorem sign_stage_signs {X : Type} (latent_image : latent_dict elem X)
    (gp : gen_params) (artist_key : pystr) (crypto_blend : float)
    (shuffle_mode : pystr) (now : float) (identity : Identity)
    (crypto_base : tensor elem) :
  PrimFloat.ltb blend_threshold crypto_blend = true ->
  _derive_crypto_identity artist_key (tshape (samples latent_image)) now = Ok identity ->
  randn (seed identity) (tshape (samples latent_image)) = Ok crypto_base ->
  (seed identity
   + Z.of_nat (dimB (tshape (samples latent_image))
               * dimC (tshape (samples latent_image))) <= 2 ^ 32)%Z ->
  shuffle_mode = py "pixel" \/
  (exists field block_size,
     split_on 95 shuffle_mode !! 1 = Some field /\
     py_int field = Some block_size /\ (1 <= block_size)%Z) ->
  exists crypto_noise,
    _shuffle_latent crypto_base identity shuffle_mode = Ok crypto_noise /\
    (forall b c, b < dimB (tshape (samples latent_image)) ->
                 c < dimC (tshape (samples latent_image)) ->
       concat (slice_at crypto_noise b c) ≡ₚ concat (slice_at crypto_base b c)) /\
    sign_stage latent_image gp artist_key crypto_blend shuffle_mode now
    = Ok (StageOut
            (LatentDict (blend (samples latent_image) crypto_noise crypto_blend) [])
            (signature_of identity)
            (Some (_build_verification_info identity crypto_blend shuffle_mode
                     (tshape (samples latent_image)) gp))).
Proof.
  intros Hr Hd Hbase Hs Hmode.
  destruct (randn_wf _ _ _ Hbase) as [Hsh Hwf].
  destruct (shuffle_latent_rearranges crypto_base identity shuffle_mode Hwf
              (seed_range _ _ _ _ Hd)) as (noise & Hrun & _ & _ & Hperm);
    [by rewrite Hsh|exact Hmode|].
  rewrite Hsh in Hperm.
  exists noise. split; [exact Hrun|]. split; [exact Hperm|].
  unfold sign_stage. rewrite Hr, Hd. cbn [rbind].
  unfold apply_crypto_noise. rewrite Hbase. cbn [rbind]. rewrite Hrun. reflexivity.
Qed.

End StagePaths.

(** ** The further properties on the reference platform *)

(** A result of the stage is known by its fields. *)
Lemma stage_result_by_fields `{Platform} {X : Type} (r : result (stage_out X))
    (t : stage_out X) :
  (o <-- r ;; Ok (samples (signed_latent o), other_keys (signed_latent o),
                  signature o, verification_info o))
  = Ok (samples (signed_latent t), other_keys (signed_latent t),
        signature t, verification_info t) ->
  r = Ok t.
Proof.
  destruct r as [o|e]; cbn [rbind]; [|discriminate].
  destruct o as [[s1 k1] g1 v1], t as [[s2 k2] g2 v2].
  cbn [samples other_keys signed_latent signature verification_info].
  intros [= -> -> -> ->]. reflexivity.
Qed.

Lemma tiny_run :
  sign_stage (H := reference_platform) tiny_latent demo_params (py "alice") 0.5%float
    (py "pixel") 1%float = Ok tiny_signed.
Proof. apply stage_result_by_fields. vm_compute. reflexivity. Qed.

Lemma tiny_latent_wf : tensor_wf (samples tiny_latent).
Proof. apply ramp_wf. Qed.

Lemma pixel_mode_cells_witness :
  tensor_wf alice_latent /\
  (0 <= seed alice_identity)%Z /\
  (seed alice_identity
   + Z.of_nat (dimB (tshape alice_latent) * dimC (tshape alice_latent)) <= 2 ^ 32)%Z /\
  exists shuffled,
    _shuffle_pixels (H := reference_platform) alice_latent alice_identity = Ok shuffled /\
    tshape shuffled = tshape alice_latent.
Proof.
  assert (H1 : (0 <= seed alice_identity)%Z) by (cbn; lia).
  assert (H2 : (seed alice_identity
                + Z.of_nat (dimB (tshape alice_latent) * dimC (tshape alice_latent))
                <= 2 ^ 32)%Z) by (cbn; lia).
  repeat (split; [first [exact alice_latent_wf | exact H1 | exact H2]|]).
  destruct (pixel_mode_cells (P := reference_platform) alice_latent alice_identity
              alice_latent_wf H1 H2) as (shuffled & Hrun & Hshape & _).
  exists shuffled. split; [exact Hrun|exact Hshape].
Defined.

Lemma pixel_mode_raises_iff_witness :
  tensor_wf alice_latent /\
  (0 <= seed alice_identity < 2 ^ 32)%Z /\
  forall e, _shuffle_pixels (H := reference_platform) alice_latent alice_identity = Raise e ->
            e = ValueError.
Proof.
  assert (H1 : (0 <= seed alice_identity < 2 ^ 32)%Z) by (cbn; lia).
  split; [exact alice_latent_wf|]. split; [exact H1|].
  exact (proj2 (pixel_mode_raises_iff (P := reference_platform) alice_latent
                  alice_identity alice_latent_wf H1)).
Defined.

Lemma pixel_mode_preserves_values_witness :
  tensor_wf alice_latent /\
  (0 <= seed alice_identity)%Z /\
  (seed alice_identity
   + Z.of_nat (dimB (tshape alice_latent) * dimC (tshape alice_latent)) <= 2 ^ 32)%Z /\
  exists shuffled,
    _shuffle_pixels (H := reference_platform) alice_latent alice_identity = Ok shuffled /\
    concat (slice_at shuffled 0 0) ≡ₚ concat (slice_at alice_latent 0 0).
Proof.
  assert (H1 : (0 <= seed alice_identity)%Z) by (cbn; lia).
  assert (H2 : (seed alice_identity
                + Z.of_nat (dimB (tshape alice_latent) * dimC (tshape alice_latent))
                <= 2 ^ 32)%Z) by (cbn; lia).
  repeat (split; [first [exact alice_latent_wf | exact H1 | exact H2]|]).
  destruct (pixel_mode_preserves_values (P := reference_platform) alice_latent
              alice_identity alice_latent_wf H1 H2) as (shuffled & Hrun & Hperm).
  exists shuffled. split; [exact Hrun|]. apply Hperm; cbn; lia.
Defined.

Lemma oversized_block_is_pixel_mode_witness :
  py "block_32" <> py "pixel" /\
  split_on 95 (py "block_32") !! 1%nat = Some (py "32") /\
  ascii_int (py "32") = Some 32 /\
  (1 <= 32)%Z /\
  (dimH (tshape alice_latent) < Z.to_nat 32)%nat /\
  _shuffle_latent (H := reference_platform) alice_latent alice_identity (py "block_32")
  = _shuffle_latent (H := reference_platform) alice_latent alice_identity (py "pixel").
Proof.
  assert (H1 : py "block_32" <> py "pixel") by discriminate.
  assert (H2 : split_on 95 (py "block_32") !! 1%nat = Some (py "32")) by reflexivity.
  assert (H3 : ascii_int (py "32") = Some 32) by reflexivity.
  assert (H4 : (1 <= 32)%Z) by lia.
  assert (H5 : (dimH (tshape alice_latent) < Z.to_nat 32)%nat) by (cbn; lia).
  split; [exact H1|]. split; [exact H2|]. split; [exact H3|].
  split; [exact H4|]. split; [exact H5|].
  exact (oversized_block_is_pixel_mode (P := reference_platform) alice_latent
           alice_identity (py "block_32") (py "32") 32 H1 H2 H3 H4 (or_introl H5)).
Defined.

Lemma single_block_unchanged_witness :
  tensor_wf (samples tiny_latent) /\
  (0 <= seed tiny_identity < 2 ^ 32)%Z /\
  (1 <= 2)%Z /\
  (dimH (tshape (samples tiny_latent)) / Z.to_nat 2 = 1)%nat /\
  (dimW (tshape (samples tiny_latent)) / Z.to_nat 2 = 1)%nat /\
  exists shuffled,
    _shuffle_blocks (H := reference_platform) (samples tiny_latent) tiny_identity 2
    = Ok shuffled /\
    tcell shuffled 0 1 1 2 = tcell (samples tiny_latent) 0 1 1 2.
Proof.
  assert (H1 : (0 <= seed tiny_identity < 2 ^ 32)%Z) by (cbn; lia).
  assert (H2 : (1 <= 2)%Z) by lia.
  assert (H3 : (dimH (tshape (samples tiny_latent)) / Z.to_nat 2 = 1)%nat) by reflexivity.
  assert (H4 : (dimW (tshape (samples tiny_latent)) / Z.to_nat 2 = 1)%nat) by reflexivity.
  split; [exact tiny_latent_wf|]. split; [exact H1|]. split; [exact H2|].
  split; [exact H3|]. split; [exact H4|].
  destruct (single_block_unchanged (P := reference_platform) (samples tiny_latent)
              tiny_identity 2 tiny_latent_wf H1 H2 H3 H4) as (shuffled & Hrun & _ & Hcells).
  exists shuffled. split; [exact Hrun|apply Hcells].
Defined.

Lemma block_mode_preserves_values_witness :
  let latent := ramp 0 (Shape 1 1 20 27) in
  tensor_wf latent /\
  (0 <= seed alice_identity < 2 ^ 32)%Z /\
  (1 <= 8)%Z /\
  (Z.to_nat 8 <= dimH (tshape latent))%nat /\
  (Z.to_nat 8 <= dimW (tshape latent))%nat /\
  (dimH (tshape latent) mod Z.to_nat 8 = 4)%nat /\
  exists shuffled,
    _shuffle_blocks (H := reference_platform) latent alice_identity 8 = Ok shuffled /\
    concat (slice_at shuffled 0 0) ≡ₚ concat (slice_at latent 0 0).
Proof.
  intros latent.
  assert (H0 : tensor_wf latent) by apply ramp_wf.
  assert (H1 : (0 <= seed alice_identity < 2 ^ 32)%Z) by (cbn; lia).
  assert (H2 : (1 <= 8)%Z) by lia.
  assert (H3 : (Z.to_nat 8 <= dimH (tshape latent))%nat) by (cbn; lia).
  assert (H4 : (Z.to_nat 8 <= dimW (tshape latent))%nat) by (cbn; lia).
  repeat (split; [first [exact H0 | exact H1 | exact H2 | exact H3 | exact H4
                        | reflexivity]|]).
  destruct (block_mode_preserves_values (P := reference_platform) latent
              alice_identity 8 H0 H1 H2 H3 H4) as (shuffled & Hrun & _ & _ & Hperm).
  exists shuffled. split; [exact Hrun|]. apply Hperm; cbn; lia.
Defined.

Lemma tiny_mode_fields (field : pystr) (block_size : Z) :
  split_on 95 (py "pixel") !! 1%nat = Some field ->
  ascii_int field = Some block_size -> (0 <= block_size)%Z.
Proof. discriminate. Qed.

Lemma sign_stage_keeps_shape_witness :
  tensor_wf (samples tiny_latent) /\
  sign_stage (H := reference_platform) tiny_latent demo_params (py "alice") 0.5%float
    (py "pixel") 1%float = Ok tiny_signed /\
  tshape (samples (signed_latent tiny_signed)) = tshape (samples tiny_latent) /\
  tensor_wf (samples (signed_latent tiny_signed)).
Proof.
  split; [exact tiny_latent_wf|]. split; [exact tiny_run|].
  exact (sign_stage_keeps_shape (P := reference_platform) tiny_latent demo_params
           (py "alice") 0.5%float (py "pixel") 1%float tiny_signed
           tiny_latent_wf tiny_mode_fields tiny_run).
Defined.

Lemma sign_stage_outcomes_witness :
  sign_stage (H := reference_platform) tiny_latent demo_params (py "alice") 0.5%float
    (py "pixel") 1%float = Ok tiny_signed /\
  (tiny_signed = StageOut (H := reference_platform) tiny_latent (py "unsigned") None \/
   tiny_signed = StageOut (H := reference_platform) tiny_latent (py "error") None \/
   other_keys (signed_latent tiny_signed) = [] /\
   signature tiny_signed <> py "error").
Proof.
  split; [exact tiny_run|].
  destruct (sign_stage_outcomes (P := reference_platform) tiny_latent demo_params
              (py "alice") 0.5%float (py "pixel") 1%float tiny_signed tiny_run)
    as [[_ Hu]|[[_ He]|(_ & _ & Hne & Hk & _)]].
  - left. exact Hu.
  - right. left. exact He.
  - right. right. split; [exact Hk|exact Hne].
Defined.

Lemma fingerprint_format_witness :
  _derive_crypto_identity (py "alice") (Shape 1 2 2 3) 1%float = Ok tiny_identity /\
  length (key_hash tiny_identity) = 64%nat /\
  length (signature_of tiny_identity) = 19%nat.
Proof.
  assert (Hd : _derive_crypto_identity (py "alice") (Shape 1 2 2 3) 1%float
               = Ok tiny_identity) by (vm_compute; reflexivity).
  split; [exact Hd|].
  destruct (fingerprint_format (py "alice") (Shape 1 2 2 3) 1%float tiny_identity Hd)
    as (Hlen & _ & Hsig & _).
  split; [exact Hlen|exact Hsig].
Defined.

Lemma signature_discloses_seed_witness :
  encode_utf8 (py "alice") = Ok [97; 108; 105; 99; 101] /\
  _derive_crypto_identity (py "alice") (Shape 1 2 2 3) 1%float = Ok tiny_identity /\
  drop 11 (signature_of tiny_identity) = hex (SHA256.be_bytes 4 (seed tiny_identity)).
Proof.
  assert (He : encode_utf8 (py "alice") = Ok [97; 108; 105; 99; 101]) by reflexivity.
  assert (Hd : _derive_crypto_identity (py "alice") (Shape 1 2 2 3) 1%float
               = Ok tiny_identity) by (vm_compute; reflexivity).
  split; [exact He|]. split; [exact Hd|].
  exact (proj1 (signature_discloses_seed (py "alice") _ (Shape 1 2 2 3) 1%float
                  tiny_identity He Hd)).
Defined.

Lemma zero_block_size_falls_back_witness :
  PrimFloat.ltb blend_threshold 0.5 = true /\
  encode_utf8 (py "alice") = Ok [97; 108; 105; 99; 101] /\
  py "block_0" <> py "pixel" /\
  split_on 95 (py "block_0") !! 1%nat = Some (py "0") /\
  ascii_int (py "0") = Some 0 /\
  sign_stage (H := reference_platform) tiny_latent demo_params (py "alice") 0.5%float
    (py "block_0") 1%float
  = Ok (StageOut (H := reference_platform) tiny_latent (py "error") None).
Proof.
  assert (Hr : PrimFloat.ltb blend_threshold 0.5 = true) by reflexivity.
  assert (He : encode_utf8 (py "alice") = Ok [97; 108; 105; 99; 101]) by reflexivity.
  assert (Hp : py "block_0" <> py "pixel") by discriminate.
  assert (Hf : split_on 95 (py "block_0") !! 1%nat = Some (py "0")) by reflexivity.
  assert (Hi : ascii_int (py "0") = Some 0) by reflexivity.
  split; [exact Hr|]. split; [exact He|]. split; [exact Hp|].
  split; [exact Hf|]. split; [exact Hi|].
  exact (proj2 (zero_block_size_falls_back (P := reference_platform) tiny_latent
                  demo_params (py "alice") _ 0.5%float (py "block_0") (py "0") 1%float
                  Hr He Hp Hf Hi)).
Defined.

Lemma full_blend_ignores_latent_witness :
  let other := LatentDict (ramp 500 (Shape 1 2 2 3)) [(py "noise_mask", tt)] in
  PrimFloat.ltb blend_threshold 1 = true /\
  PrimFloat.ltb 1 1 = false /\
  tshape (samples tiny_latent) = tshape (samples other) /\
  match sign_stage (H := reference_platform) tiny_latent demo_params (py "alice")
          1%float (py "pixel") 1%float,
        sign_stage (H := reference_platform) other demo_params (py "alice")
          1%float (py "pixel") 1%float with
  | Ok o1, Ok o2 =>
      signature o1 = signature o2 /\
      verification_info o1 = verification_info o2 /\
      (signature o1 <> py "error" -> signed_latent o1 = signed_latent o2)
  | Raise e1, Raise e2 => e1 = e2
  | _, _ => False
  end.
Proof.
  intros other.
  assert (Hr : PrimFloat.ltb blend_threshold 1 = true) by reflexivity.
  assert (Hf : PrimFloat.ltb 1 1 = false) by reflexivity.
  assert (Hs : tshape (samples tiny_latent) = tshape (samples other)) by reflexivity.
  split; [exact Hr|]. split; [exact Hf|]. split; [exact Hs|].
  exact (full_blend_ignores_latent (P := reference_platform) tiny_latent other
           demo_params (py "alice") 1%float (py "pixel") 1%float Hr Hf Hs).
Defined.

Lemma sample_outputs_witness :
  let json := one_field_json
                (_build_verification_info tiny_identity 0.5 (py "pixel")
                   (Shape 1 2 2 3) demo_params) in
  sample (H := reference_platform) (fun _ => Ok tt) tiny_latent demo_params
    (py "alice") 0.5%float (py "pixel") 1%float
  = Ok (tt, py "CN-2bd806c97f0e00af", json) /\
  py "CN-2bd806c97f0e00af" <> py "error" /\
  json <> py "{}".
Proof.
  intros json.
  assert (Hrun : sample (H := reference_platform) (fun _ => Ok tt) tiny_latent
                   demo_params (py "alice") 0.5%float (py "pixel") 1%float
                 = Ok (tt, py "CN-2bd806c97f0e00af", json))
    by (vm_compute; reflexivity).
  split; [exact Hrun|].
  destruct (sample_outputs (P := reference_platform) (fun _ => Ok tt) tiny_latent
              demo_params (py "alice") 0.5%float (py "pixel") 1%float tt _ _ Hrun)
    as [([Hu|He] & _)|(_ & Hne & _)].
  - discriminate Hu.
  - discriminate He.
  - split; [exact Hne|discriminate].
Defined.

Lemma offered_modes_rearrange_witness :
  ascii_int (py "8") = Some 8 /\
  ascii_int (py "16") = Some 16 /\
  ascii_int (py "32") = Some 32 /\
  py "block_16" ∈ choices INPUT_TYPES_shuffle_mode /\
  tensor_wf alice_latent /\
  (0 <= seed alice_identity < 2 ^ 32)%Z /\
  (seed alice_identity
   + Z.of_nat (dimB (tshape alice_latent) * dimC (tshape alice_latent)) <= 2 ^ 32)%Z /\
  exists shuffled,
    _shuffle_latent (H := reference_platform) alice_latent alice_identity (py "block_16")
    = Ok shuffled /\
    concat (slice_at shuffled 0 0) ≡ₚ concat (slice_at alice_latent 0 0).
Proof.
  assert (H8 : ascii_int (py "8") = Some 8) by reflexivity.
  assert (H16 : ascii_int (py "16") = Some 16) by reflexivity.
  assert (H32 : ascii_int (py "32") = Some 32) by reflexivity.
  assert (Hin : py "block_16" ∈ choices INPUT_TYPES_shuffle_mode)
    by (apply list_elem_of_further, list_elem_of_here).
  assert (H1 : (0 <= seed alice_identity < 2 ^ 32)%Z) by (cbn; lia).
  assert (H2 : (seed alice_identity
                + Z.of_nat (dimB (tshape alice_latent) * dimC (tshape alice_latent))
                <= 2 ^ 32)%Z) by (cbn; lia).
  repeat (split; [first [exact H8 | exact H16 | exact H32 | exact Hin
                        | exact alice_latent_wf | exact H1 | exact H2]|]).
  destruct (offered_modes_rearrange (P := reference_platform) alice_latent
              alice_identity (py "block_16") H8 H16 H32 Hin alice_latent_wf H1 H2)
    as (_ & shuffled & Hrun & _ & _ & Hperm).
  exists shuffled. split; [exact Hrun|]. apply Hperm; cbn; lia.
Defined.

Lemma pixel_overflow_falls_back_witness :
  let latent := LatentDict (ramp 7 (Shape 1 4 2 2)) ([] : list (pystr * unit)) in
  PrimFloat.ltb blend_threshold 0.5 = true /\
  _derive_crypto_identity (py "artist58259143") (tshape (samples latent)) 1%float
  = Ok late_identity /\
  (2 ^ 32 < seed late_identity
            + Z.of_nat (dimB (tshape (samples latent)) * dimC (tshape (samples latent))))%Z /\
  sign_stage (H := reference_platform) latent demo_params (py "artist58259143")
    0.5%float (py "pixel") 1%float
  = Ok (StageOut (H := reference_platform) latent (py "error") None).
Proof.
  intros latent.
  assert (Hr : PrimFloat.ltb blend_threshold 0.5 = true) by reflexivity.
  assert (Hd : _derive_crypto_identity (py "artist58259143")
                 (tshape (samples latent)) 1%float = Ok late_identity)
    by (vm_compute; reflexivity).
  assert (Ho : (2 ^ 32 < seed late_identity
                + Z.of_nat (dimB (tshape (samples latent))
                            * dimC (tshape (samples latent))))%Z) by (cbn; lia).
  split; [exact Hr|]. split; [exact Hd|]. split; [exact Ho|].
  exact (pixel_overflow_falls_back (P := reference_platform) latent demo_params
           (py "artist58259143") 0.5%float 1%float late_identity Hr Hd Ho).
Defined.

Lemma sign_stage_signs_witness :
  PrimFloat.ltb blend_threshold 0.5 = true /\
  _derive_crypto_identity (py "alice") (tshape (samples tiny_latent)) 1%float
  = Ok tiny_identity /\
  (seed tiny_identity
   + Z.of_nat (dimB (tshape (samples tiny_latent))
               * dimC (tshape (samples tiny_latent))) <= 2 ^ 32)%Z /\
  exists crypto_noise,
    _shuffle_latent (H := reference_platform) (ramp (seed tiny_identity) (Shape 1 2 2 3))
      tiny_identity (py "pixel") = Ok crypto_noise /\
    sign_stage (H := reference_platform) tiny_latent demo_params (py "alice") 0.5%float
      (py "pixel") 1%float
    = Ok (StageOut (H := reference_platform)
            (LatentDict (blend (H := reference_platform) (samples tiny_latent)
                           crypto_noise 0.5) [])
            (signature_of tiny_identity)
            (Some (_build_verification_info tiny_identity 0.5 (py "pixel")
                     (tshape (samples tiny_latent)) demo_params))).
Proof.
  assert (Hr : PrimFloat.ltb blend_threshold 0.5 = true) by reflexivity.
  assert (Hd : _derive_crypto_identity (py "alice") (tshape (samples tiny_latent))
                 1%float = Ok tiny_identity) by (vm_compute; reflexivity).
  assert (Hs : (seed tiny_identity
                + Z.of_nat (dimB (tshape (samples tiny_latent))
                            * dimC (tshape (samples tiny_latent))) <= 2 ^ 32)%Z)
    by (cbn; lia).
  split; [exact Hr|]. split; [exact Hd|]. split; [exact Hs|].
  destruct (sign_stage_signs (P := reference_platform) tiny_latent demo_params
              (py "alice") 0.5%float (py "pixel") 1%float tiny_identity
              (ramp (seed tiny_identity) (Shape 1 2 2 3)) Hr Hd eq_refl Hs
              (or_introl eq_refl)) as (noise & Hrun & _ & Hstage).
  exists noise. split; [exact Hrun|exact Hstage].
Defined.
